(** * SDWebRecovery: the HTTP handlers of [src/main.cpp], embedded and verified

    The sketch serves an SD card over HTTP from an ESP32: [/raw] streams the
    card sector by sector, [/list] prints a directory as JSON, and every other
    path is looked up on the card's filesystem, with a diagnostic page as the
    fallback.

    The embedding is shallow.  Each handler of [main.cpp] is a function of a
    small state-and-failure monad over a [World]: the global [hasSD], the card
    (read only), the table of handles the driver holds open, and the trace of
    everything the handler asked of the WebServer, SD and Serial objects, in
    program order.  Loops carry fuel; [None] means that no result was reached.

    Layout: platform integers, the Arduino [String] operations the sketch
    calls, the world and its monad, the handlers in source order, a JSON
    recogniser, and then the lemmas and theorems. *)

From Stdlib Require Import ZArith List Bool Lia Ascii String.
From Stdlib Require Import Strings.Byte.
From Stdlib Require Import Numbers.DecimalString.
Import ListNotations.

Local Open Scope string_scope.
Local Open Scope Z_scope.

(* ===================================================================== *)
(** ** Platform integers (ESP32: 32-bit words, [size_t] is 32 bits wide)   *)
(* ===================================================================== *)

Module Platform.

Definition SIZE_BITS : Z := 32.

(** Conversion of a mathematical value to an unsigned type of [w] bits. *)
Definition wrap (w : Z) (z : Z) : Z := z mod 2 ^ w.

Definition to_size_t (z : Z) : Z := wrap SIZE_BITS z.
Definition to_uint64 (z : Z) : Z := wrap 64 z.
Definition to_uint8 (z : Z) : Z := wrap 8 z.

Definition INT_MAX : Z := 2 ^ 31 - 1.

Arguments INT_MAX : simpl never.

(** [(unsigned char) c], as [memset] converts its fill value. *)
Definition uchar (c : Z) : byte :=
  match Byte.of_N (Z.to_N (to_uint8 c)) with
  | Some b => b
  | None => x00
  end.

End Platform.

(* ===================================================================== *)
(** ** The Arduino [String] operations used by the sketch                  *)
(* ===================================================================== *)

(** [String] is modelled as [string].  Indices are mathematical integers: the
    32-bit words Arduino keeps them in cannot overflow for a string that fits
    the address space of the chip. *)

Module WString.

Definition len (s : string) : Z := Z.of_nat (String.length s).

(** [&buffer()[n]]: the string from offset [n] on. *)
Fixpoint from_offset (n : nat) (s : string) : string :=
  match n, s with
  | O, _ => s
  | S n', String _ t => from_offset n' t
  | S _, EmptyString => EmptyString
  end.

Fixpoint take (n : nat) (s : string) : string :=
  match n, s with
  | O, _ => EmptyString
  | S n', String c t => String c (take n' t)
  | S _, EmptyString => EmptyString
  end.

(** [String::endsWith]: false when [s2] is longer, otherwise [strcmp] of the
    tail of [s] at offset [len - s2.len] against [s2]. *)
Definition endsWith (s s2 : string) : bool :=
  if len s <? len s2 then false
  else String.eqb (from_offset (String.length s - String.length s2) s) s2.

(** The scan of [String::lastIndexOf(s2, fromIndex)]: every occurrence of
    [pat] at an index not above [fromIndex] replaces [found]. *)
Fixpoint lastIndexOf_scan (pat s : string) (i fromIndex found : Z) : Z :=
  let found' :=
    if String.prefix pat s && (i <=? fromIndex) then i else found in
  match s with
  | EmptyString => found'
  | String _ t => lastIndexOf_scan pat t (i + 1) fromIndex found'
  end.

(** [String::lastIndexOf(s2)] is [lastIndexOf(s2, len - s2.len)]; -1 when
    there is no occurrence. *)
Definition lastIndexOf (s s2 : string) : Z :=
  if (len s2 =? 0) || (len s =? 0) || (len s <? len s2) then -1
  else lastIndexOf_scan s2 s 0 (len s - len s2) (-1).

(** An [int] passed where [unsigned int] is expected. *)
Definition as_unsigned (z : Z) : Z :=
  if z <? 0 then z + 2 ^ 32 else z.

(** [String::substring(left, right)]: the arguments are swapped when out of
    order, an out-of-range [left] gives the empty string, and [right] is
    clipped to the length. *)
Definition substring (s : string) (left right : Z) : string :=
  let from := as_unsigned left in
  let to := as_unsigned right in
  let from' := if to <? from then to else from in
  let to' := if to <? from then from else to in
  if len s <=? from' then EmptyString
  else
    let to'' := if len s <? to' then len s else to' in
    take (Z.to_nat (to'' - from')) (from_offset (Z.to_nat from') s).

(** [String(int)]: the decimal representation. *)
Definition of_int (z : Z) : string :=
  NilZero.string_of_int (Z.to_int z).

End WString.

Import WString.

(* ===================================================================== *)
(** ** Content-type resolution: lines 70-98 of [loadFromSdCard]            *)
(* ===================================================================== *)

(** The first part of [loadFromSdCard]: the default document for a path that
    ends in a slash, then the chain of suffix tests.  The result is the pair of
    the locals [path] and [dataType] as they stand at line 99. *)
Definition resolveContentType (path : string) : string * string :=
  let dataType := "text/plain" in
  let path := if endsWith path "/" then path ++ "index.htm" else path in
  if endsWith path ".src" then
    (substring path 0 (lastIndexOf path "."), dataType)
  else if endsWith path ".htm" then (path, "text/html")
  else if endsWith path ".css" then (path, "text/css")
  else if endsWith path ".js" then (path, "application/javascript")
  else if endsWith path ".png" then (path, "image/png")
  else if endsWith path ".gif" then (path, "image/gif")
  else if endsWith path ".jpg" then (path, "image/jpeg")
  else if endsWith path ".ico" then (path, "image/x-icon")
  else if endsWith path ".xml" then (path, "text/xml")
  else if endsWith path ".pdf" then (path, "application/pdf")
  else if endsWith path ".zip" then (path, "application/zip")
  else (path, dataType).

(** *** The resolver as the specification words it

    Section 4.1 of the specification describes a table lookup.  The
    definitions below follow its words and share nothing with the code above;
    [resolveContentType] is compared with [ContentTypeResolver] further
    down. *)

Module Spec.

Definition ContentTypeMapping : list (string * string) :=
  [ ("htm", "text/html"); ("css", "text/css"); ("js", "application/javascript");
    ("png", "image/png"); ("gif", "image/gif"); ("jpg", "image/jpeg");
    ("ico", "image/x-icon"); ("xml", "text/xml"); ("pdf", "application/pdf");
    ("zip", "application/zip") ].

Fixpoint lookup (key : string) (table : list (string * string)) : option string :=
  match table with
  | [] => None
  | (k, v) :: rest => if String.eqb key k then Some v else lookup key rest
  end.

(** The suffix of a path: what follows its last dot, when it has one. *)
Fixpoint suffix (path : string) : option string :=
  match path with
  | EmptyString => None
  | String c rest =>
      match suffix rest with
      | Some e => Some e
      | None => if Ascii.eqb c "." then Some rest else None
      end
  end.

(** [strip suf path] is [Some base] exactly when [path] is [base ++ suf]. *)
Fixpoint strip (suf path : string) : option string :=
  if String.eqb path suf then Some EmptyString
  else
    match path with
    | EmptyString => None
    | String c rest =>
        match strip suf rest with
        | Some base => Some (String c base)
        | None => None
        end
    end.

Definition ContentTypeResolver (path : string) : string * string :=
  let path :=
    match strip "/" path with
    | Some _ => path ++ "index.htm"
    | None => path
    end in
  match strip ".src" path with
  | Some base => (base, "text/plain")
  | None =>
      match suffix path with
      | Some e =>
          match lookup e ContentTypeMapping with
          | Some mime => (path, mime)
          | None => (path, "text/plain")
          end
      | None => (path, "text/plain")
      end
  end.

End Spec.

(* ===================================================================== *)
(** ** The world the handlers run in                                       *)
(* ===================================================================== *)

(** The methods of [HTTPMethod] that the ESP32 WebServer parses. *)
Inductive HTTPMethod :=
| HTTP_DELETE | HTTP_GET | HTTP_HEAD | HTTP_POST | HTTP_PUT
| HTTP_OPTIONS | HTTP_PATCH.

Definition HTTPMethod_eqb (a b : HTTPMethod) : bool :=
  match a, b with
  | HTTP_DELETE, HTTP_DELETE | HTTP_GET, HTTP_GET | HTTP_HEAD, HTTP_HEAD
  | HTTP_POST, HTTP_POST | HTTP_PUT, HTTP_PUT | HTTP_OPTIONS, HTTP_OPTIONS
  | HTTP_PATCH, HTTP_PATCH => true
  | _, _ => false
  end.

(** The request the server object holds while a handler runs.  The query
    arguments keep their order: [argName(i)] and [arg(i)] index into it. *)
Record Request := {
  req_uri : string;
  req_method : HTTPMethod;
  req_args : list (string * string)
}.

(** What a path names on the card: a file of some size, or a directory with
    its children in the order the driver enumerates them (child path, and
    whether the child is a directory). *)
Inductive Node :=
| NFile (size : Z)
| NDir (entries : list (string * bool)).

(** The card behind the global [SD].  [card_sector i] is the true content of
    sector [i] when the sector can be read and [None] when the read fails;
    [card_partial i buf] is what a failed read of sector [i] leaves in the
    caller's buffer [buf]. *)
Record Card := {
  card_numSectors : Z;
  card_sectorSize : Z;
  card_sector : Z -> option (list byte);
  card_partial : Z -> list byte -> list byte;
  card_lookup : string -> option Node
}.

(** What the sketch cannot decide: the card, how many bytes the transport
    takes when the file at a path is streamed, and the outcome of the start-up
    calls ([WiFi.status()] at the n-th poll, [MDNS.begin], [SD.begin]). *)
Record Env := {
  env_card : Card;
  env_streamed : string -> Z;
  env_wifi_connected : nat -> bool;
  env_mdns_begin : bool;
  env_sd_begin : bool
}.

(** An open [File]: the handle the driver gave out, the path it was opened
    at, and for a directory the children [openNextFile] has yet to return. *)
Record FileImpl := {
  f_handle : nat;
  f_path : string;
  f_isDirectory : bool;
  f_size : Z;
  f_pending : list (string * bool)
}.

(** A [File] object; [None] is the empty [File], which tests false. *)
Definition File : Type := option FileImpl.

(** One call on the WebServer, SD, File, WiFi, MDNS or Serial objects, or the
    assignment to the global [hasSD]. *)
Inductive Event :=
| SetContentLength (n : Z)
| Send (code : Z) (content_type content : string)
| SendContent (content : string)
| SendContent_P (content : list byte)
| StreamFile (handle : nat) (content_type : string)
| SdExists (path : string)
| SdOpen (path : string) (handle : option nat)
| SdReadRAW (sector : Z) (ok : bool)
| FileRewind (handle : nat)
| FileOpenNext (dir : nat) (handle : option nat)
| FileClose (handle : nat)
| FileRelease (handle : nat)
| SerialPrint (text : string)
| Delay (ms : Z)
| WifiBegin
| MdnsBegin (ok : bool)
| ServerOn (uri : string) (method : HTTPMethod)
| ServerOnNotFound
| ServerBegin
| SdBegin (ok : bool)
| AssignHasSD (value : bool).

Record World := {
  w_env : Env;
  w_request : Request;
  w_hasSD : bool;            (* static bool hasSD *)
  w_open : list nat;         (* handles the driver holds open *)
  w_next : nat;              (* the next handle the driver gives out *)
  w_trace : list Event       (* oldest first *)
}.

Definition with_trace (t : list Event) (w : World) : World :=
  {| w_env := w_env w; w_request := w_request w; w_hasSD := w_hasSD w;
     w_open := w_open w; w_next := w_next w; w_trace := t |}.

Definition with_open (o : list nat) (n : nat) (w : World) : World :=
  {| w_env := w_env w; w_request := w_request w; w_hasSD := w_hasSD w;
     w_open := o; w_next := n; w_trace := w_trace w |}.

Definition with_hasSD (b : bool) (w : World) : World :=
  {| w_env := w_env w; w_request := w_request w; w_hasSD := b;
     w_open := w_open w; w_next := w_next w; w_trace := w_trace w |}.

Definition with_request (r : Request) (w : World) : World :=
  {| w_env := w_env w; w_request := r; w_hasSD := w_hasSD w;
     w_open := w_open w; w_next := w_next w; w_trace := w_trace w |}.

(** *** The monad: state over [World], [None] when no result is reached *)

Definition M (A : Type) : Type := World -> option (A * World).

Definition ret {A} (a : A) : M A := fun w => Some (a, w).

Definition bind {A B} (m : M A) (k : A -> M B) : M B :=
  fun w => match m w with
           | Some (a, w') => k a w'
           | None => None
           end.

Definition no_result {A} : M A := fun _ => None.

Notation "x <- m ;; k" := (bind m (fun x => k))
  (at level 61, m at next level, right associativity).
Notation "' pat <- m ;; k" := (bind m (fun x => match x with pat => k end))
  (at level 61, pat pattern, m at next level, right associativity).
Notation "m ;; k" := (bind m (fun _ => k))
  (at level 61, right associativity).

Definition emit (e : Event) : M unit :=
  fun w => Some (tt, with_trace (w_trace w ++ [e]) w).

Definition ask {A} (f : World -> A) : M A := fun w => Some (f w, w).

(** *** Characters that a Rocq string literal cannot hold *)

Definition CR : string := String (ascii_of_nat 13) EmptyString.
Definition LF : string := String (ascii_of_nat 10) EmptyString.
Definition DQ : string := String (ascii_of_nat 34) EmptyString.
Definition CRLF : string := CR ++ LF.

(** *** The [server] object *)

Definition server_uri : M string := ask (fun w => req_uri (w_request w)).
Definition server_method : M HTTPMethod := ask (fun w => req_method (w_request w)).

(** [server.args()]: the number of query arguments, an [int]. *)
Definition server_args : M Z :=
  ask (fun w => Z.of_nat (List.length (req_args (w_request w)))).

Definition server_hasArg (name : string) : M bool :=
  ask (fun w => existsb (fun kv => String.eqb (fst kv) name) (req_args (w_request w))).

(** [server.arg(name)]: the value of the first argument of that name, the
    empty string when there is none. *)
Definition server_arg (name : string) : M string :=
  ask (fun w =>
    match find (fun kv => String.eqb (fst kv) name) (req_args (w_request w)) with
    | Some kv => snd kv
    | None => EmptyString
    end).

(** [server.argName(i)] and [server.arg(i)]: empty when [i] is out of range. *)
Definition server_argName (i : Z) : M string :=
  ask (fun w =>
    if i <? 0 then EmptyString
    else match nth_error (req_args (w_request w)) (Z.to_nat i) with
         | Some kv => fst kv
         | None => EmptyString
         end).

Definition server_arg_at (i : Z) : M string :=
  ask (fun w =>
    if i <? 0 then EmptyString
    else match nth_error (req_args (w_request w)) (Z.to_nat i) with
         | Some kv => snd kv
         | None => EmptyString
         end).

Definition CONTENT_LENGTH_UNKNOWN : Z := 2 ^ Platform.SIZE_BITS - 1.

Definition server_setContentLength (n : Z) : M unit := emit (SetContentLength n).
Definition server_send (code : Z) (content_type content : string) : M unit :=
  emit (Send code content_type content).
Definition server_sendContent (content : string) : M unit :=
  emit (SendContent content).

(** [server.sendContent_P(data, size)]: the first [size] bytes at [data]. *)
Definition server_sendContent_P (data : list byte) (size : Z) : M unit :=
  emit (SendContent_P (firstn (Z.to_nat size) data)).

Definition Serial_print (text : string) : M unit := emit (SerialPrint text).
Definition Serial_println (text : string) : M unit := emit (SerialPrint (text ++ CRLF)).

(** *** The [SD] object and [File] *)

Definition SD_numSectors : M Z := ask (fun w => card_numSectors (env_card (w_env w))).
Definition SD_sectorSize : M Z := ask (fun w => card_sectorSize (env_card (w_env w))).

(** [SD.readRAW(data, sector)]: a successful read replaces the buffer with the
    sector's content; a failed one leaves what the driver wrote before it gave
    up. *)
Definition SD_readRAW (data : list byte) (sector : Z) : M (bool * list byte) :=
  card <- ask (fun w => env_card (w_env w)) ;;
  match card_sector card sector with
  | Some content => emit (SdReadRAW sector true) ;; ret (true, content)
  | None => emit (SdReadRAW sector false) ;; ret (false, card_partial card sector data)
  end.

Definition SD_exists (path : string) : M bool :=
  card <- ask (fun w => env_card (w_env w)) ;;
  emit (SdExists path) ;;
  ret (match card_lookup card path with Some _ => true | None => false end).

(** The driver gives out the next handle and records it as open. *)
Definition alloc_handle : M nat :=
  fun w => Some (w_next w, with_open (w_next w :: w_open w) (S (w_next w)) w).

(** The driver forgets a handle. *)
Definition forget (h : nat) (open : list nat) : list nat :=
  filter (fun x => negb (Nat.eqb x h)) open.

Arguments forget : simpl never.

Definition free_handle (h : nat) : M unit :=
  fun w => Some (tt, with_open (forget h (w_open w)) (w_next w) w).

Definition open_node (path : string) (node : Node) : M FileImpl :=
  h <- alloc_handle ;;
  ret match node with
      | NFile size =>
          {| f_handle := h; f_path := path; f_isDirectory := false;
             f_size := size; f_pending := [] |}
      | NDir entries =>
          {| f_handle := h; f_path := path; f_isDirectory := true;
             f_size := 0; f_pending := entries |}
      end.

(** [SD.open(path)]: an empty [File] when nothing is at [path]. *)
Definition SD_open (path : string) : M File :=
  card <- ask (fun w => env_card (w_env w)) ;;
  match card_lookup card path with
  | Some node =>
      f <- open_node path node ;;
      emit (SdOpen path (Some (f_handle f))) ;;
      ret (Some f)
  | None => emit (SdOpen path None) ;; ret None
  end.

(** [operator bool] and [isDirectory()]; both are false on an empty [File]. *)
Definition File_bool (f : File) : bool :=
  match f with Some _ => true | None => false end.

Definition File_isDirectory (f : File) : bool :=
  match f with Some impl => f_isDirectory impl | None => false end.

Definition File_size (f : File) : Z :=
  match f with Some impl => f_size impl | None => 0 end.

Definition File_path (f : File) : string :=
  match f with Some impl => f_path impl | None => EmptyString end.

(** [f.close()]: closes the handle and leaves [f] empty; nothing happens on an
    empty [File]. *)
Definition File_close (f : File) : M File :=
  match f with
  | Some impl => free_handle (f_handle impl) ;; emit (FileClose (f_handle impl)) ;; ret None
  | None => ret None
  end.

(** Modelled from the spec: the class [File] is declared by the ESP32 core's
    FS library, which is not part of the repository.  Section 4.2 of the
    specification has the handle scoped to the request and released on every
    exit path; the library does this in the destructor (a [File] owns its
    implementation through a shared pointer, and destroying the implementation
    closes the handle).  [File_drop f] is what happens when the object [f]
    goes out of scope or is overwritten by an assignment: a handle it still
    holds is released, and a closed or empty [File] has nothing to release. *)
Definition File_drop (f : File) : M unit :=
  match f with
  | Some impl => free_handle (f_handle impl) ;; emit (FileRelease (f_handle impl))
  | None => ret tt
  end.

(** [lhs = rhs] on [File] objects: the value [lhs] held is dropped. *)
Definition File_assign (lhs rhs : File) : M File :=
  File_drop lhs ;; ret rhs.

Definition File_rewindDirectory (f : File) : M File :=
  match f with
  | Some impl =>
      card <- ask (fun w => env_card (w_env w)) ;;
      emit (FileRewind (f_handle impl)) ;;
      ret (Some {| f_handle := f_handle impl; f_path := f_path impl;
                   f_isDirectory := f_isDirectory impl; f_size := f_size impl;
                   f_pending := match card_lookup card (f_path impl) with
                                | Some (NDir entries) => entries
                                | _ => []
                                end |})
  | None => ret None
  end.

(** [dir.openNextFile()]: the next child, opened, and [dir] advanced past it;
    an empty [File] when the children are exhausted or [dir] is empty. *)
Definition File_openNextFile (dir : File) : M (File * File) :=
  match dir with
  | Some impl =>
      match f_pending impl with
      | (path, isdir) :: rest =>
          card <- ask (fun w => env_card (w_env w)) ;;
          h <- alloc_handle ;;
          emit (FileOpenNext (f_handle impl) (Some h)) ;;
          let child :=
            {| f_handle := h; f_path := path; f_isDirectory := isdir;
               f_size := match card_lookup card path with
                         | Some (NFile size) => size
                         | _ => 0
                         end;
               f_pending := match card_lookup card path with
                            | Some (NDir entries) => entries
                            | _ => []
                            end |} in
          ret (Some child,
               Some {| f_handle := f_handle impl; f_path := f_path impl;
                       f_isDirectory := f_isDirectory impl; f_size := f_size impl;
                       f_pending := rest |})
      | [] => emit (FileOpenNext (f_handle impl) None) ;; ret (None, dir)
      end
  | None => ret (None, None)
  end.

(** [server.streamFile(file, type)]: the response is started with the file's
    size as its length; the result is the number of bytes the transport took. *)
Definition server_streamFile (f : File) (content_type : string) : M Z :=
  match f with
  | Some impl =>
      emit (StreamFile (f_handle impl) content_type) ;;
      ask (fun w => Platform.to_size_t (env_streamed (w_env w) (f_path impl)))
  | None => ret 0
  end.

(* ===================================================================== *)
(** ** The handlers of [main.cpp], in source order                         *)
(* ===================================================================== *)

Definition DAMAGEDSECTOR : Z := 0xE5.

(** [memset(data, c, n)] on a buffer held as a list. *)
Definition memset (data : list byte) (c : Z) (n : Z) : list byte :=
  repeat (Platform.uchar c) (Z.to_nat n) ++ skipn (Z.to_nat n) data.

Definition returnOK : M unit :=
  server_send 200 "text/plain" EmptyString.

Definition returnFail (msg : string) : M unit :=
  server_send 500 "text/plain" (msg ++ CRLF).

(** [loadFromSdCard], lines 70-121.  The local [dataFile] is destroyed on both
    returns; after [close()] it is empty and its destruction does nothing. *)
Definition loadFromSdCard (path : string) : M bool :=
  let '(path, dataType) := resolveContentType path in
  dataFile <- SD_open path ;;
  '(path, dataType, dataFile) <-
    (if File_isDirectory dataFile then
       let path := path ++ "/index.htm" in
       let dataType := "text/html" in
       opened <- SD_open path ;;
       dataFile <- File_assign dataFile opened ;;
       ret (path, dataType, dataFile)
     else ret (path, dataType, dataFile)) ;;
  if negb (File_bool dataFile) then
    File_drop dataFile ;;
    ret false
  else
    download <- server_hasArg "download" ;;
    let dataType := if download then "application/octet-stream" else dataType in
    sent <- server_streamFile dataFile dataType ;;
    (if negb (sent =? File_size dataFile)
     then Serial_println "Sent less data than expected!"
     else ret tt) ;;
    dataFile <- File_close dataFile ;;
    File_drop dataFile ;;
    ret true.

(** The loop of [streamRaw], lines 144-152; [sector] is a [uint64_t]. *)
Fixpoint streamRaw_loop (fuel : nat) (sectors sectorSize sector : Z)
    (data : list byte) : M unit :=
  match fuel with
  | O => no_result
  | S fuel' =>
      if sector <? sectors then
        '(ok, data) <- SD_readRAW data sector ;;
        data <- (if negb ok then
                   let data := memset data DAMAGEDSECTOR sectorSize in
                   Serial_print "Error reading sector " ;;
                   Serial_println (of_int sector) ;;
                   ret data
                 else ret data) ;;
        server_sendContent_P data sectorSize ;;
        streamRaw_loop fuel' sectors sectorSize (Platform.to_uint64 (sector + 1)) data
      else ret tt
  end.

(** [streamRaw], lines 123-153.  [sectors] is a [uint64_t]; [sectorSize] and
    [sdSize] are [size_t], so the product computed in 64 bits is cut to the
    width of [size_t] when it is stored. *)
Definition streamRaw (fuel : nat) : M unit :=
  sectors <- SD_numSectors ;;
  sectorSize <- SD_sectorSize ;;
  let sdSize := Platform.to_size_t (Platform.to_uint64 (sectors * sectorSize)) in
  Serial_print (of_int sectors) ;;
  Serial_print " sectors, " ;;
  Serial_print (of_int sectorSize) ;;
  Serial_print " bytes per sector, " ;;
  Serial_print (of_int sdSize) ;;
  Serial_println " bytes." ;;
  let data := repeat x00 (Z.to_nat sectorSize) in
  let data := memset data 0 sectorSize in
  server_setContentLength sdSize ;;
  server_send 200 "application/octet-stream" EmptyString ;;
  streamRaw_loop fuel sectors sectorSize 0 data.

(** The text [printDirectory] sends for one entry, lines 180-190. *)
Definition entry_output (cnt : Z) (entry : File) : string :=
  let output := if 0 <? cnt then "," else EmptyString in
  let output := output ++ ("{" ++ DQ ++ "type" ++ DQ ++ ":" ++ DQ) in
  let output := output ++ (if File_isDirectory entry then "dir" else "file") in
  let output := output ++ (DQ ++ "," ++ DQ ++ "name" ++ DQ ++ ":" ++ DQ) in
  let output := output ++ File_path entry in
  let output := output ++ DQ in
  let output := output ++ "}" in
  output.

(** The loop of [printDirectory], lines 174-193.  [cnt] is an [int]:
    incrementing it past [INT_MAX] is undefined, and gives no result here. *)
Fixpoint printDirectory_loop (fuel : nat) (cnt : Z) (dir : File) : M File :=
  match fuel with
  | O => no_result
  | S fuel' =>
      '(entry, dir) <- File_openNextFile dir ;;
      if negb (File_bool entry) then
        File_drop entry ;;
        ret dir
      else
        server_sendContent (entry_output cnt entry) ;;
        entry <- File_close entry ;;
        File_drop entry ;;
        if Platform.INT_MAX <=? cnt then no_result
        else printDirectory_loop fuel' (cnt + 1) dir
  end.

(** [printDirectory], lines 155-196. *)
Definition printDirectory (fuel : nat) : M unit :=
  has_dir <- server_hasArg "dir" ;;
  if negb has_dir then returnFail "BAD ARGS"
  else
    path <- server_arg "dir" ;;
    missing <- (if negb (String.eqb path "/")
                then (found <- SD_exists path ;; ret (negb found))
                else ret false) ;;
    if missing then returnFail "BAD PATH"
    else
      dir <- SD_open path ;;
      if negb (File_isDirectory dir) then
        dir <- File_close dir ;;
        returnFail "NOT DIR" ;;
        File_drop dir
      else
        dir <- File_rewindDirectory dir ;;
        server_setContentLength CONTENT_LENGTH_UNKNOWN ;;
        server_send 200 "text/json" EmptyString ;;
        server_sendContent "[" ;;
        dir <- printDirectory_loop fuel 0 dir ;;
        server_sendContent "]" ;;
        dir <- File_close dir ;;
        File_drop dir.

(** The loop of [handleNotFound], lines 213-215; [i] is a [uint8_t]. *)
Fixpoint handleNotFound_loop (fuel : nat) (i : Z) (message : string) : M string :=
  match fuel with
  | O => no_result
  | S fuel' =>
      args <- server_args ;;
      if i <? args then
        name <- server_argName i ;;
        value <- server_arg_at i ;;
        let message :=
          message ++ ((((" NAME:" ++ name) ++ (LF ++ " VALUE:")) ++ value) ++ LF) in
        handleNotFound_loop fuel' (Platform.to_uint8 (i + 1)) message
      else ret message
  end.

(** The message of [handleNotFound] as it stands before the loop, lines
    202-212. *)
Definition notFound_head (hasSD : bool) (uri : string) (method : HTTPMethod)
    (args : Z) : string :=
  let message := if negb hasSD then "SDCARD Not Detected" ++ LF ++ LF else EmptyString in
  let message := message ++ "URI: " in
  let message := message ++ uri in
  let message := message ++ (LF ++ "Method: ") in
  let message := message ++ (if HTTPMethod_eqb method HTTP_GET then "GET" else "POST") in
  let message := message ++ (LF ++ "Arguments: ") in
  let message := message ++ of_int args in
  let message := message ++ LF in
  message.

(** [handleNotFound], lines 198-218.  [hasSD && loadFromSdCard(...)] does not
    call [loadFromSdCard] when [hasSD] is false. *)
Definition handleNotFound (fuel : nat) : M unit :=
  hasSD <- ask w_hasSD ;;
  served <- (if hasSD then (uri <- server_uri ;; loadFromSdCard uri) else ret false) ;;
  if served then ret tt
  else
    hasSD <- ask w_hasSD ;;
    uri <- server_uri ;;
    method <- server_method ;;
    args <- server_args ;;
    let message := notFound_head hasSD uri method args in
    message <- handleNotFound_loop fuel 0 message ;;
    server_send 404 "text/plain" message ;;
    Serial_print message.

(** The wait for the network in [setup], lines 235-238: [poll] counts the
    calls of [WiFi.status()], [i] is the [uint8_t] of the source. *)
Fixpoint wifi_wait (fuel : nat) (poll : nat) (i : Z) : M Z :=
  match fuel with
  | O => no_result
  | S fuel' =>
      connected <- ask (fun w => env_wifi_connected (w_env w) poll) ;;
      if negb connected then
        let i' := Platform.to_uint8 (i + 1) in
        if i <? 20 then emit (Delay 500) ;; wifi_wait fuel' (S poll) i'
        else ret i'
      else ret i
  end.

(** [setup], lines 220-269, without its Serial output.  When the network does
    not come up the source spins in [while (1)] and [setup] never returns:
    there is no result. *)
Definition setup (fuel : nat) : M unit :=
  emit WifiBegin ;;
  i <- wifi_wait fuel 0 0 ;;
  if i =? 21 then no_result
  else
    mdns <- ask (fun w => env_mdns_begin (w_env w)) ;;
    emit (MdnsBegin mdns) ;;
    emit (ServerOn "/list" HTTP_GET) ;;
    emit (ServerOn "/raw" HTTP_GET) ;;
    emit ServerOnNotFound ;;
    emit ServerBegin ;;
    sd <- ask (fun w => env_sd_begin (w_env w)) ;;
    emit (SdBegin sd) ;;
    if sd then
      (fun w => Some (tt, with_hasSD true w)) ;;
      emit (AssignHasSD true)
    else ret tt.

(** [server.handleClient()] in [loop]: the request is dispatched by the routes
    that [setup] registered. *)
Definition handleClient (fuel : nat) (request : Request) : M unit :=
  (fun w => Some (tt, with_request request w)) ;;
  if String.eqb (req_uri request) "/list" && HTTPMethod_eqb (req_method request) HTTP_GET
  then printDirectory fuel
  else if String.eqb (req_uri request) "/raw" && HTTPMethod_eqb (req_method request) HTTP_GET
  then streamRaw fuel
  else handleNotFound fuel.

(** The world when the sketch starts: [hasSD] is statically false, nothing is
    open, nothing has happened. *)
Definition boot_world (env : Env) : World :=
  {| w_env := env;
     w_request := {| req_uri := EmptyString; req_method := HTTP_GET; req_args := [] |};
     w_hasSD := false; w_open := []; w_next := 0%nat; w_trace := [] |}.

(** [setup()] once, then [loop()] once per request. *)
Fixpoint serve (fuel : nat) (requests : list Request) : M unit :=
  match requests with
  | [] => ret tt
  | request :: rest => handleClient fuel request ;; emit (Delay 2) ;; serve fuel rest
  end.

Definition run (fuel : nat) (requests : list Request) : M unit :=
  setup fuel ;; serve fuel requests.

(** *** What a trace shows to the client *)

(** The body bytes of the response, in the order they were sent. *)
Definition event_bytes (e : Event) : list byte :=
  match e with
  | Send _ _ content => list_byte_of_string content
  | SendContent content => list_byte_of_string content
  | SendContent_P content => content
  | _ => []
  end.

Definition body_bytes (t : list Event) : list byte :=
  List.concat (map event_bytes t).

(** The body as text, for the handlers that send strings. *)
Definition event_text (e : Event) : string :=
  match e with
  | Send _ _ content => content
  | SendContent content => content
  | SendContent_P content => string_of_list_byte content
  | _ => EmptyString
  end.

Definition body_text (t : list Event) : string :=
  fold_right String.append EmptyString (map event_text t).

(** The content length the handler declared, when it declared one. *)
Definition declared_length (t : list Event) : option Z :=
  match filter (fun e => match e with SetContentLength _ => true | _ => false end) t with
  | SetContentLength n :: _ => Some n
  | _ => None
  end.

(** The status code of the response, when one was sent. *)
Definition status_code (t : list Event) : option Z :=
  match filter (fun e => match e with Send _ _ _ => true | _ => false end) t with
  | Send code _ _ :: _ => Some code
  | _ => None
  end.

(** The sectors the handler asked the card for, in order. *)
Definition sectors_read (t : list Event) : list Z :=
  flat_map (fun e => match e with SdReadRAW s _ => [s] | _ => [] end) t.

(** Whether an event is a call on the filesystem. *)
Definition is_fs_event (e : Event) : bool :=
  match e with
  | SdExists _ | SdOpen _ _ | SdReadRAW _ _ | FileRewind _ | FileOpenNext _ _
  | FileClose _ | FileRelease _ | StreamFile _ _ | SdBegin _ => true
  | _ => false
  end.

(** Running a handler in a world: the events it adds and the world it leaves. *)
Definition events_of {A} (m : M A) (w : World) : option (list Event) :=
  match m (with_trace [] w) with
  | Some (_, w') => Some (w_trace w')
  | None => None
  end.

(* ===================================================================== *)
(** ** A recogniser for JSON texts (RFC 8259)                              *)
(* ===================================================================== *)

(** What it means for the body of [/list] to be a JSON array.  The recogniser
    either consumes a value and returns the rest of the input, rejects the
    input, or runs out of fuel; the three are kept apart. *)

Module Json.

Inductive Parse :=
| Rest (rest : string)
| Reject
| Starved.

Definition code (c : ascii) : nat := nat_of_ascii c.

Definition is_ws (c : ascii) : bool :=
  Nat.eqb (code c) 32 || Nat.eqb (code c) 9 || Nat.eqb (code c) 10 || Nat.eqb (code c) 13.

Fixpoint skip_ws (s : string) : string :=
  match s with
  | String c t => if is_ws c then skip_ws t else s
  | EmptyString => s
  end.

Definition is_digit (c : ascii) : bool :=
  Nat.leb 48 (code c) && Nat.leb (code c) 57.

Definition is_hex (c : ascii) : bool :=
  is_digit c
  || (Nat.leb 97 (code c) && Nat.leb (code c) 102)
  || (Nat.leb 65 (code c) && Nat.leb (code c) 70).

(** The characters that may follow a backslash, [u] apart. *)
Definition is_escape (c : ascii) : bool :=
  Nat.eqb (code c) 34 || Nat.eqb (code c) 92 || Nat.eqb (code c) 47
  || Nat.eqb (code c) 98 || Nat.eqb (code c) 102 || Nat.eqb (code c) 110
  || Nat.eqb (code c) 114 || Nat.eqb (code c) 116.

(** The bytes of a character outside ASCII, which JSON texts hold in UTF-8
    (RFC 8259, section 8.1; RFC 3629, section 4): a lead byte and one, two or
    three continuation bytes, neither overlong nor a surrogate nor above
    U+10FFFF. *)
Definition between (lo hi : nat) (c : ascii) : bool :=
  Nat.leb lo (code c) && Nat.leb (code c) hi.

Definition is_cont (c : ascii) : bool := between 128 191 c.

Definition utf8_2 (c1 c2 : ascii) : bool :=
  between 194 223 c1 && is_cont c2.

Definition utf8_3 (c1 c2 c3 : ascii) : bool :=
  ((Nat.eqb (code c1) 224 && between 160 191 c2)
   || (between 225 236 c1 && is_cont c2)
   || (Nat.eqb (code c1) 237 && between 128 159 c2)
   || (between 238 239 c1 && is_cont c2))
  && is_cont c3.

Definition utf8_4 (c1 c2 c3 c4 : ascii) : bool :=
  ((Nat.eqb (code c1) 240 && between 144 191 c2)
   || (between 241 243 c1 && is_cont c2)
   || (Nat.eqb (code c1) 244 && between 128 143 c2))
  && is_cont c3 && is_cont c4.

(** The characters of a string after its opening quote, up to and including
    the closing quote: no bare quote, backslash or control character, and
    outside ASCII only well-formed UTF-8. *)
Fixpoint chars (s : string) : Parse :=
  match s with
  | EmptyString => Reject
  | String c t =>
      if Nat.eqb (code c) 34 then Rest t
      else if Nat.eqb (code c) 92 then
        match t with
        | String e t' =>
            if is_escape e then chars t'
            else if Nat.eqb (code e) 117 then
              match t' with
              | String h1 (String h2 (String h3 (String h4 t''))) =>
                  if is_hex h1 && is_hex h2 && is_hex h3 && is_hex h4
                  then chars t'' else Reject
              | _ => Reject
              end
            else Reject
        | EmptyString => Reject
        end
      else if Nat.ltb (code c) 32 then Reject
      else if Nat.ltb (code c) 128 then chars t
      else
        match t with
        | String c2 t2 =>
            if utf8_2 c c2 then chars t2
            else
              match t2 with
              | String c3 t3 =>
                  if utf8_3 c c2 c3 then chars t3
                  else
                    match t3 with
                    | String c4 t4 =>
                        if utf8_4 c c2 c3 c4 then chars t4 else Reject
                    | EmptyString => Reject
                    end
              | EmptyString => Reject
              end
        | EmptyString => Reject
        end
  end.

Fixpoint digits (s : string) : string :=
  match s with
  | String c t => if is_digit c then digits t else s
  | EmptyString => s
  end.

Definition exponent (s : string) : Parse :=
  match s with
  | String c t =>
      if Nat.eqb (code c) 101 || Nat.eqb (code c) 69 then
        let t :=
          match t with
          | String sign t' =>
              if Nat.eqb (code sign) 43 || Nat.eqb (code sign) 45 then t' else t
          | EmptyString => t
          end in
        match t with
        | String d t' => if is_digit d then Rest (digits t') else Reject
        | EmptyString => Reject
        end
      else Rest s
  | EmptyString => Rest s
  end.

Definition fraction (s : string) : Parse :=
  match s with
  | String c t =>
      if Nat.eqb (code c) 46 then
        match t with
        | String d t' => if is_digit d then exponent (digits t') else Reject
        | EmptyString => Reject
        end
      else exponent s
  | EmptyString => Rest s
  end.

Definition number (s : string) : Parse :=
  let s :=
    match s with
    | String c t => if Nat.eqb (code c) 45 then t else s
    | EmptyString => s
    end in
  match s with
  | String c t =>
      if Nat.eqb (code c) 48 then fraction t
      else if is_digit c then fraction (digits t)
      else Reject
  | EmptyString => Reject
  end.

Definition literal (lit s : string) : Parse :=
  if String.prefix lit s then Rest (from_offset (String.length lit) s) else Reject.

(** A value, the members of an object after its opening brace, and the
    elements of an array after its opening bracket. *)
Fixpoint value (fuel : nat) (s : string) : Parse :=
  match fuel with
  | O => Starved
  | S fuel' =>
      match skip_ws s with
      | EmptyString => Reject
      | String c t =>
          if Nat.eqb (code c) 123 then
            match skip_ws t with
            | String c' t' => if Nat.eqb (code c') 125 then Rest t' else members fuel' t
            | EmptyString => Reject
            end
          else if Nat.eqb (code c) 91 then
            match skip_ws t with
            | String c' t' => if Nat.eqb (code c') 93 then Rest t' else elements fuel' t
            | EmptyString => Reject
            end
          else if Nat.eqb (code c) 34 then chars t
          else if Nat.eqb (code c) 116 then literal "true" (String c t)
          else if Nat.eqb (code c) 102 then literal "false" (String c t)
          else if Nat.eqb (code c) 110 then literal "null" (String c t)
          else number (String c t)
      end
  end
with members (fuel : nat) (s : string) : Parse :=
  match fuel with
  | O => Starved
  | S fuel' =>
      match skip_ws s with
      | String q t =>
          if Nat.eqb (code q) 34 then
            match chars t with
            | Rest r =>
                match skip_ws r with
                | String c r' =>
                    if Nat.eqb (code c) 58 then
                      match value fuel' r' with
                      | Rest r2 =>
                          match skip_ws r2 with
                          | String d r3 =>
                              if Nat.eqb (code d) 44 then members fuel' r3
                              else if Nat.eqb (code d) 125 then Rest r3
                              else Reject
                          | EmptyString => Reject
                          end
                      | other => other
                      end
                    else Reject
                | EmptyString => Reject
                end
            | other => other
            end
          else Reject
      | EmptyString => Reject
      end
  end
with elements (fuel : nat) (s : string) : Parse :=
  match fuel with
  | O => Starved
  | S fuel' =>
      match value fuel' s with
      | Rest r =>
          match skip_ws r with
          | String d r' =>
              if Nat.eqb (code d) 44 then elements fuel' r'
              else if Nat.eqb (code d) 93 then Rest r'
              else Reject
          | EmptyString => Reject
          end
      | other => other
      end
  end.

(** [r] is final when the recogniser did not run out of fuel. *)
Definition final (r : Parse) : Prop := r <> Starved.

(** A JSON text: one value, white space around it, nothing after it. *)
Definition text (fuel : nat) (s : string) : Parse :=
  match value fuel s with
  | Rest r =>
      match skip_ws r with
      | EmptyString => Rest EmptyString
      | String _ _ => Reject
      end
  | other => other
  end.

Definition starts_array (s : string) : bool :=
  match skip_ws s with
  | String c _ => Nat.eqb (code c) 91
  | EmptyString => false
  end.

(** [s] is a JSON array: some amount of fuel lets the recogniser accept it. *)
Definition valid_array (s : string) : Prop :=
  starts_array s = true /\ exists fuel, text fuel s = Rest EmptyString.

(** The fuel that is enough for a text of the length of [s]. *)
Definition enough (s : string) : nat := 2 * String.length s + 2.

(** The decision on [s], with [enough s] fuel. *)
Definition check_array (s : string) : bool :=
  starts_array s &&
  match text (enough s) s with
  | Rest EmptyString => true
  | _ => false
  end.

(** A name that can stand between quotes as it is: no quote, no backslash,
    no control character, and outside ASCII only well-formed UTF-8. *)
Fixpoint plain (s : string) : bool :=
  match s with
  | EmptyString => true
  | String c t =>
      if Nat.eqb (code c) 34 then false
      else if Nat.eqb (code c) 92 then false
      else if Nat.ltb (code c) 32 then false
      else if Nat.ltb (code c) 128 then plain t
      else
        match t with
        | String c2 t2 =>
            if utf8_2 c c2 then plain t2
            else
              match t2 with
              | String c3 t3 =>
                  if utf8_3 c c2 c3 then plain t3
                  else
                    match t3 with
                    | String c4 t4 =>
                        if utf8_4 c c2 c3 c4 then plain t4 else false
                    | EmptyString => false
                    end
              | EmptyString => false
              end
        | EmptyString => false
        end
  end.

End Json.

(* ===================================================================== *)
(** ** The vocabulary of the properties                                    *)
(* ===================================================================== *)

(** The handles of a world are in order when every open handle was given out
    before [w_next]. *)
Definition handles_ok (w : World) : Prop :=
  Forall (fun h => (h < w_next w)%nat) (w_open w).

(** A computation leaves the handles in order when it finds them so. *)
Definition tidy {A} (m : M A) : Prop :=
  forall w a w', handles_ok w -> m w = Some (a, w') -> handles_ok w'.

(** A card the driver can describe: the sector count fits a [uint64_t], the
    sector size a [size_t], and a readable sector has [sectorSize] bytes. *)
Definition card_ok (c : Card) : Prop :=
  0 <= card_numSectors c < 2 ^ 64 /\
  0 <= card_sectorSize c < 2 ^ Platform.SIZE_BITS /\
  forall i d, 0 <= i < card_numSectors c -> card_sector c i = Some d ->
              Z.of_nat (List.length d) = card_sectorSize c.

(** The bytes [off, off + n) of a stream. *)
Definition slice (off n : Z) (l : list byte) : list byte :=
  firstn (Z.to_nat n) (skipn (Z.to_nat off) l).

(** [k; k + 1; ...; k + n - 1], and the sector indices [0; 1; ...; n - 1]. *)
Fixpoint indices_from (k : Z) (n : nat) : list Z :=
  match n with
  | O => []
  | S n' => k :: indices_from (k + 1) n'
  end.

Definition sector_indices (n : Z) : list Z := indices_from 0 (Z.to_nat n).

(** What the raw image holds at the place of sector [i]: the content of the
    sector when it can be read, the marker byte throughout when it cannot. *)
Definition sector_chunk (c : Card) (i : Z) : list byte :=
  match card_sector c i with
  | Some content => content
  | None => repeat xe5 (Z.to_nat (card_sectorSize c))
  end.

(** What [streamRaw] does for sector [i], and what it does before the loop. *)
Definition sector_events (c : Card) (i : Z) : list Event :=
  match card_sector c i with
  | Some content => [SdReadRAW i true; SendContent_P content]
  | None =>
      [SdReadRAW i false; SerialPrint "Error reading sector ";
       SerialPrint (of_int i ++ CRLF);
       SendContent_P (repeat xe5 (Z.to_nat (card_sectorSize c)))]
  end.

Definition streamRaw_header (c : Card) : list Event :=
  let sdSize :=
    Platform.to_size_t (Platform.to_uint64 (card_numSectors c * card_sectorSize c)) in
  [SerialPrint (of_int (card_numSectors c)); SerialPrint " sectors, ";
   SerialPrint (of_int (card_sectorSize c)); SerialPrint " bytes per sector, ";
   SerialPrint (of_int sdSize); SerialPrint (" bytes." ++ CRLF);
   SetContentLength sdSize;
   Send 200 "application/octet-stream" EmptyString].

(** [pat] occurs in [s]. *)
Definition contains (s pat : string) : Prop :=
  exists before after, s = before ++ pat ++ after.

Fixpoint containsb (pat s : string) : bool :=
  String.prefix pat s ||
  match s with
  | String _ t => containsb pat t
  | EmptyString => false
  end.

(** The name of a method on the request line. *)
Definition method_name (m : HTTPMethod) : string :=
  match m with
  | HTTP_DELETE => "DELETE" | HTTP_GET => "GET" | HTTP_HEAD => "HEAD"
  | HTTP_POST => "POST" | HTTP_PUT => "PUT" | HTTP_OPTIONS => "OPTIONS"
  | HTTP_PATCH => "PATCH"
  end.

(** The handles a trace opens, and the handles it closes or releases. *)
Definition opened (t : list Event) : list nat :=
  flat_map (fun e => match e with
                     | SdOpen _ (Some h) | FileOpenNext _ (Some h) => [h]
                     | _ => []
                     end) t.

Definition closed (t : list Event) : list nat :=
  flat_map (fun e => match e with
                     | FileClose h | FileRelease h => [h]
                     | _ => []
                     end) t.

(** A handler is blind to [hasSD] when the flag changes nothing of what it
    does: started with either value it reaches the same result, adds the same
    events and leaves the same world, the flag itself apart. *)
Definition lift_hasSD {A} (b : bool) (r : option (A * World)) : option (A * World) :=
  match r with
  | Some (a, w') => Some (a, with_hasSD b w')
  | None => None
  end.

Definition blind {A} (m : M A) : Prop :=
  forall w b, m (with_hasSD b w) = lift_hasSD b (m w).

(** A handler consults [hasSD] when some world exists in which the value of
    the flag changes what the handler does. *)
Definition consults_hasSD {A} (m : M A) : Prop :=
  exists w, events_of m (with_hasSD true w) <> events_of m (with_hasSD false w).

(** The number of assignments to [hasSD] in a trace. *)
Definition assignments (t : list Event) : nat :=
  List.length (filter (fun e => match e with AssignHasSD _ => true | _ => false end) t).

(** The events of the [NOT DIR] exit: the call of [SD.exists] unless the path
    is the root, the call of [SD.open], the close of what it opened, and the
    response. *)
Definition not_dir_events (path : string) (node : option Node) (next : nat) : list Event :=
  ((if String.eqb path "/" then [] else [SdExists path])
   ++ match node with
      | Some _ => [SdOpen path (Some next); FileClose next]
      | None => [SdOpen path None]
      end
   ++ [Send 500 "text/plain" ("NOT DIR" ++ CRLF)])%list.

(** One entry of the listing as the specification writes it: an object with
    the members [type] and [name]. *)
Definition entry_json (entry : string * bool) : string :=
  "{" ++ DQ ++ "type" ++ DQ ++ ":" ++ DQ ++ (if snd entry then "dir" else "file") ++ DQ
  ++ "," ++ DQ ++ "name" ++ DQ ++ ":" ++ DQ ++ fst entry ++ DQ ++ "}".

Arguments entry_json : simpl never.

(** The listing of a directory: the entries between brackets, a comma between
    two entries. *)
Definition listing_text (entries : list (string * bool)) : string :=
  "[" ++ String.concat "," (map entry_json entries) ++ "]".

(** What the loop of [printDirectory] does for the entries still to come:
    each is opened, written and closed before the next is opened.  [dir] is
    the handle of the directory, [h] the handle the next entry gets, [cnt] the
    counter of the loop. *)
Fixpoint listing_events (dir h : nat) (cnt : Z) (entries : list (string * bool))
    : list Event :=
  match entries with
  | [] => []
  | entry :: rest =>
      FileOpenNext dir (Some h)
      :: SendContent ((if 0 <? cnt then "," else EmptyString) ++ entry_json entry)
      :: FileClose h
      :: listing_events dir (S h) (cnt + 1) rest
  end.

(** All that [printDirectory] does on a directory. *)
Definition directory_events (path : string) (h : nat) (entries : list (string * bool))
    : list Event :=
  ((if String.eqb path "/" then [] else [SdExists path])
   ++ [SdOpen path (Some h); FileRewind h; SetContentLength CONTENT_LENGTH_UNKNOWN;
       Send 200 "text/json" EmptyString; SendContent "["]
   ++ listing_events h (S h) 0 entries
   ++ [FileOpenNext h None; SendContent "]"; FileClose h])%list.


(** A computation keeps the environment, the request and the flag, and
    assigns nothing to the flag. *)
Definition keeps {A} (m : M A) : Prop :=
  forall w a w', m w = Some (a, w') ->
    w_env w' = w_env w /\ w_request w' = w_request w /\ w_hasSD w' = w_hasSD w
    /\ assignments (w_trace w') = assignments (w_trace w).

(** The lines of the diagnostic page for one query argument, and the page:
    the head, then the lines of the arguments in their order. *)
Definition arg_lines (kv : string * string) : string :=
  (((" NAME:" ++ fst kv) ++ (LF ++ " VALUE:")) ++ snd kv) ++ LF.

Arguments arg_lines : simpl never.

Definition notFound_message (hasSD : bool) (r : Request) : string :=
  fold_left (fun message kv => message ++ arg_lines kv) (req_args r)
    (notFound_head hasSD (req_uri r) (req_method r)
       (Z.of_nat (List.length (req_args r)))).

Definition NOT_DETECTED : string := "SDCARD Not Detected" ++ LF ++ LF.

(** The request falls through to the diagnostic page, leaving the world [w1]:
    either the card was not detected and the filesystem is not asked, or
    [loadFromSdCard] found nothing to serve. *)
Definition falls_through (w w1 : World) : Prop :=
  (w_hasSD w = false /\ w1 = w)
  \/ (w_hasSD w = true /\ loadFromSdCard (req_uri (w_request w)) w = Some (false, w1)).

(** *** Worlds to run the handlers in *)

(** A card of four sectors of two bytes, the third unreadable, with a root
    directory that holds a file and a directory. *)
Definition sample_card : Card :=
  {| card_numSectors := 4;
     card_sectorSize := 2;
     card_sector := fun i => if i =? 2 then None else Some [x01; x02];
     card_partial := fun _ data => match data with _ :: t => x07 :: t | [] => [] end;
     card_lookup := fun path =>
       if String.eqb path "/" then Some (NDir [("/a.txt", false); ("/d", true)])
       else if String.eqb path "/a.txt" then Some (NFile 3)
       else if String.eqb path "/d" then Some (NDir [])
       else None |}.

Definition sample_env : Env :=
  {| env_card := sample_card;
     env_streamed := fun _ => 3;
     env_wifi_connected := fun poll => Nat.leb 2 poll;
     env_mdns_begin := true;
     env_sd_begin := true |}.

(** The world of a request that arrives after a start-up that found the
    card. *)
Definition sample_world (uri : string) (method : HTTPMethod)
    (args : list (string * string)) : World :=
  with_request {| req_uri := uri; req_method := method; req_args := args |}
    (with_hasSD true (boot_world sample_env)).

(** The sample world after [setup], and after two requests. *)
Definition sample_requests : list Request :=
  [ {| req_uri := "/raw"; req_method := HTTP_GET; req_args := [] |};
    {| req_uri := "/x"; req_method := HTTP_GET; req_args := [] |} ].

Definition sample_booted : World :=
  match setup 5 (boot_world sample_env) with
  | Some (_, w) => w
  | None => boot_world sample_env
  end.

Definition sample_served : World :=
  match serve 5 sample_requests sample_booted with
  | Some (_, w) => w
  | None => sample_booted
  end.

(** An SDHC card sold as 8 GB: 15523840 sectors of 512 bytes, all readable. *)
Definition sdhc_card : Card :=
  {| card_numSectors := 15523840;
     card_sectorSize := 512;
     card_sector := fun _ => Some (repeat x00 512%nat);
     card_partial := fun _ data => data;
     card_lookup := fun _ => None |}.

Definition sdhc_world : World :=
  with_request {| req_uri := "/raw"; req_method := HTTP_GET; req_args := [] |}
    (with_hasSD true
       (boot_world {| env_card := sdhc_card;
                      env_streamed := fun _ => 0;
                      env_wifi_connected := fun _ => true;
                      env_mdns_begin := true;
                      env_sd_begin := true |})).


(* ===================================================================== *)
(** ** More vocabulary: what the handlers do beyond the specification      *)
(* ===================================================================== *)

(** The number of responses a trace starts: [send] and [streamFile] each
    write a status line and the headers. *)
Definition starts (t : list Event) : nat :=
  List.length (filter (fun e => match e with
                                | Send _ _ _ | StreamFile _ _ => true
                                | _ => false
                                end) t).

(** The chunks a trace sends with [sendContent], and what it prints on the
    serial port. *)
Definition chunks (t : list Event) : list string :=
  flat_map (fun e => match e with SendContent s => [s] | _ => [] end) t.

Definition serial_output (t : list Event) : list string :=
  flat_map (fun e => match e with SerialPrint s => [s] | _ => [] end) t.

(** A computation that leaves the handles alone. *)
Definition untouched {A} (m : M A) : Prop :=
  forall w a w', m w = Some (a, w') -> w_open w' = w_open w /\ w_next w' = w_next w.

(** A computation that closes what it opens: started with the handles in
    order, it leaves them in order and leaves the same handles open. *)
Definition balanced {A} (m : M A) : Prop :=
  forall w a w', handles_ok w -> m w = Some (a, w') ->
                 handles_ok w' /\ w_open w' = w_open w.

(** A computation that starts exactly [n] responses when it returns. *)
Definition starting {A} (n : nat) (m : M A) : Prop :=
  forall w a w', m w = Some (a, w') -> starts (w_trace w') = (starts (w_trace w) + n)%nat.

(** A computation that starts as many responses as its result says. *)
Definition starting_by {A} (f : A -> nat) (m : M A) : Prop :=
  forall w a w', m w = Some (a, w') -> starts (w_trace w') = (starts (w_trace w) + f a)%nat.

(** What [loadFromSdCard] serves for a path, if anything: the path of the
    file, its size, and the content type before the [download] argument is
    looked at. *)
Definition static_target (c : Card) (path : string) : option (string * Z * string) :=
  let '(p, dataType) := resolveContentType path in
  match card_lookup c p with
  | None => None
  | Some (NFile size) => Some (p, size, dataType)
  | Some (NDir _) =>
      match card_lookup c (p ++ "/index.htm") with
      | None => None
      | Some (NFile size) => Some (p ++ "/index.htm", size, "text/html")
      | Some (NDir _) => Some (p ++ "/index.htm", 0, "text/html")
      end
  end.

(** The sectors of a card that cannot be read, in ascending order. *)
Definition failed_sectors (c : Card) : list Z :=
  filter (fun i => match card_sector c i with None => true | Some _ => false end)
         (sector_indices (card_numSectors c)).

(** The network comes up at poll [k]: [WiFi.status()] reports a connection at
    the [k]-th call and at none before. *)
Definition connects_at (env : Env) (k : nat) : Prop :=
  env_wifi_connected env k = true
  /\ forall j, (j < k)%nat -> env_wifi_connected env j = false.

(** What [setup] does when the network comes up at poll [k]. *)
Definition setup_events (env : Env) (k : nat) : list Event :=
  (WifiBegin :: repeat (Delay 500) k
   ++ [MdnsBegin (env_mdns_begin env); ServerOn "/list" HTTP_GET;
       ServerOn "/raw" HTTP_GET; ServerOnNotFound; ServerBegin;
       SdBegin (env_sd_begin env)]
   ++ (if env_sd_begin env then [AssignHasSD true] else []))%list.

(** A request with 256 query arguments, and an environment in which the
    network comes up at the fourth poll. *)
Definition many_args : list (string * string) := repeat ("a", "1") 256.

Definition slow_env : Env :=
  {| env_card := sample_card;
     env_streamed := fun _ => 2;
     env_wifi_connected := fun poll => Nat.leb 3 poll;
     env_mdns_begin := false;
     env_sd_begin := false |}.


(** What [printDirectory] lists for a request, if anything: the children of
    the directory that the [dir] argument names. *)
Definition list_target (w : World) : option (list (string * bool)) :=
  match find (fun kv => String.eqb (fst kv) "dir") (req_args (w_request w)) with
  | Some (_, path) =>
      match card_lookup (env_card (w_env w)) path with
      | Some (NDir entries) => Some entries
      | _ => None
      end
  | None => None
  end.

(** What [streamRaw] prints on the serial port for a sector it cannot read. *)
Definition error_lines (i : Z) : list string :=
  ["Error reading sector "; of_int i ++ CRLF].

(** A start-up followed by a listing, a file, the raw image and a path that
    is not on the card, and the world it leaves. *)
Definition busy_requests : list Request :=
  [ {| req_uri := "/list"; req_method := HTTP_GET; req_args := [("dir", "/")] |};
    {| req_uri := "/a.txt"; req_method := HTTP_GET; req_args := [] |};
    {| req_uri := "/raw"; req_method := HTTP_GET; req_args := [] |};
    {| req_uri := "/nowhere"; req_method := HTTP_POST; req_args := [("a", "1")] |} ].

Definition busy_served : World :=
  match run 5 busy_requests (boot_world sample_env) with
  | Some (_, w) => w
  | None => boot_world sample_env
  end.

(* ===================================================================== *)
(** ** Runs that do not end: where they stand                              *)
(* ===================================================================== *)

(** A run in [M] that has no result says nothing of what it did.  For the
    two places where the sketch can loop for ever, the same code is read a
    second time so that a run which is cut off keeps its world: the result is
    the world the run has reached, and the value when it has returned. *)
Definition T (A : Type) : Type := World -> World * option A.

Definition retT {A} (a : A) : T A := fun w => (w, Some a).

Definition bindT {A B} (m : T A) (k : A -> T B) : T B :=
  fun w => match m w with
           | (w', Some a) => k a w'
           | (w', None) => (w', None)
           end.

(** Cut off here. *)
Definition cut {A} : T A := fun w => (w, None).

(** A computation of [M], taken as it is. *)
Definition lift {A} (m : M A) : T A :=
  fun w => match m w with
           | Some (a, w') => (w', Some a)
           | None => (w, None)
           end.

(** What is left of a run in [T] when the world of a cut-off run is dropped. *)
Definition result_of {A} (r : World * option A) : option (A * World) :=
  match r with
  | (w, Some a) => Some (a, w)
  | (_, None) => None
  end.

Notation "x <~ m ;; k" := (bindT m (fun x => k))
  (at level 61, m at next level, right associativity).
Notation "m ;;; k" := (bindT m (fun _ => k))
  (at level 61, right associativity).

(** The loop of [handleNotFound], lines 213-215, cut off after [fuel]
    passes. *)
Fixpoint handleNotFound_loop_T (fuel : nat) (i : Z) (message : string) : T string :=
  match fuel with
  | O => cut
  | S fuel' =>
      args <~ lift server_args ;;
      if i <? args then
        name <~ lift (server_argName i) ;;
        value <~ lift (server_arg_at i) ;;
        let message :=
          message ++ ((((" NAME:" ++ name) ++ (LF ++ " VALUE:")) ++ value) ++ LF) in
        handleNotFound_loop_T fuel' (Platform.to_uint8 (i + 1)) message
      else retT message
  end.

(** [handleNotFound], lines 198-218. *)
Definition handleNotFound_T (fuel : nat) : T unit :=
  hasSD <~ lift (ask w_hasSD) ;;
  served <~ lift (if hasSD then (uri <- server_uri ;; loadFromSdCard uri) else ret false) ;;
  if served then retT tt
  else
    hasSD <~ lift (ask w_hasSD) ;;
    uri <~ lift server_uri ;;
    method <~ lift server_method ;;
    args <~ lift server_args ;;
    let message := notFound_head hasSD uri method args in
    message <~ handleNotFound_loop_T fuel 0 message ;;
    lift (server_send 404 "text/plain" message) ;;;
    lift (Serial_print message).




(** A run in [T] and a run in [M] of the same code agree when the first,
    with the world of a cut-off run dropped, is the second. *)
Definition agrees {A} (t : T A) (m : M A) : Prop :=
  forall w, result_of (t w) = m w.


(* ===================================================================== *)
(** ** Lemmas on strings                                                   *)
(* ===================================================================== *)

Section StringFacts.

Lemma append_assoc (a b c : string) : (a ++ b) ++ c = a ++ (b ++ c).
Proof. induction a as [|x a IH]; simpl; [reflexivity | now rewrite IH]. Qed.

Lemma append_empty_r (a : string) : a ++ EmptyString = a.
Proof. induction a as [|x a IH]; simpl; [reflexivity | now rewrite IH]. Qed.

Lemma length_append (a b : string) :
  String.length (a ++ b) = (String.length a + String.length b)%nat.
Proof. induction a as [|x a IH]; simpl; [reflexivity | now rewrite IH]. Qed.

Lemma from_offset_append (a b : string) : from_offset (String.length a) (a ++ b) = b.
Proof. induction a as [|x a IH]; simpl; [now destruct b | exact IH]. Qed.

Lemma take_append (a b : string) : take (String.length a) (a ++ b) = a.
Proof. induction a as [|x a IH]; simpl; [reflexivity | now rewrite IH]. Qed.

Lemma take_from_offset (n : nat) (s : string) : take n s ++ from_offset n s = s.
Proof.
  revert s; induction n as [|n IH]; intros s; simpl; [reflexivity|].
  destruct s as [|c t]; simpl; [reflexivity | now rewrite IH].
Qed.


(** [endsWith] holds exactly of the strings that are something followed by
    the suffix. *)
Lemma endsWith_append (p suf : string) : endsWith (p ++ suf) suf = true.
Proof.
  unfold endsWith, len. rewrite length_append.
  destruct (Z.ltb_spec (Z.of_nat (String.length p + String.length suf))
                       (Z.of_nat (String.length suf))) as [H|_]; [lia|].
  replace (String.length p + String.length suf - String.length suf)%nat
    with (String.length p) by lia.
  rewrite from_offset_append. apply String.eqb_refl.
Qed.

Lemma endsWith_split (s suf : string) :
  endsWith s suf = true ->
  s = take (String.length s - String.length suf) s ++ suf.
Proof.
  unfold endsWith. destruct (len s <? len suf); [discriminate|].
  intros H. apply String.eqb_eq in H.
  transitivity (take (String.length s - String.length suf) s
                ++ from_offset (String.length s - String.length suf) s).
  - symmetry. apply take_from_offset.
  - now rewrite H.
Qed.

Lemma endsWith_iff (s suf : string) :
  endsWith s suf = true <-> exists p, s = p ++ suf.
Proof.
  split.
  - intros H. eexists. apply endsWith_split, H.
  - intros [p ->]. apply endsWith_append.
Qed.

(** A suffix test on a string with a known ending is decided by the ending:
    a tested suffix that is no longer than the ending is tested on the ending,
    and a longer one can hold only if the ending is the end of it. *)
Lemma from_offset_append_add (q b : string) (k : nat) :
  from_offset (String.length q + k) (q ++ b) = from_offset k b.
Proof. induction q as [|c q IH]; [reflexivity | exact IH]. Qed.

Lemma endsWith_append_short (p a b : string) :
  (String.length b <= String.length a)%nat ->
  endsWith (p ++ a) b = endsWith a b.
Proof.
  intros H. unfold endsWith, len. rewrite length_append.
  destruct (Z.ltb_spec (Z.of_nat (String.length p + String.length a))
                       (Z.of_nat (String.length b))); [lia|].
  destruct (Z.ltb_spec (Z.of_nat (String.length a)) (Z.of_nat (String.length b))); [lia|].
  replace (String.length p + String.length a - String.length b)%nat
    with (String.length p + (String.length a - String.length b))%nat by lia.
  now rewrite from_offset_append_add.
Qed.

Lemma endsWith_append_long (p a b : string) :
  (String.length a <= String.length b)%nat ->
  endsWith (p ++ a) b = true -> endsWith b a = true.
Proof.
  intros H E.
  pose proof (endsWith_split _ _ E) as S.
  remember (take (String.length (p ++ a) - String.length b) (p ++ a)) as pre eqn:Dpre.
  clear Dpre E.
  assert (A : from_offset (String.length p) (p ++ a) = a) by apply from_offset_append.
  assert (L : (String.length p + String.length a
               = String.length pre + String.length b)%nat)
    by (rewrite <- !length_append; now rewrite S).
  replace (String.length p)
    with (String.length pre + (String.length b - String.length a))%nat in A by lia.
  rewrite S, from_offset_append_add in A.
  unfold endsWith, len.
  destruct (Z.ltb_spec (Z.of_nat (String.length b)) (Z.of_nat (String.length a))); [lia|].
  rewrite A. apply String.eqb_refl.
Qed.

(** The specification's [strip] against the [endsWith] of the code. *)
Lemma strip_append (suf p : string) : Spec.strip suf (p ++ suf) = Some p.
Proof.
  induction p as [|c p IH].
  - simpl. destruct suf; simpl; rewrite ?Ascii.eqb_refl, ?String.eqb_refl; reflexivity.
  - cbn [String.append Spec.strip]. rewrite IH.
    destruct (String.eqb_spec (String c (p ++ suf)) suf) as [E|_]; [|reflexivity].
    apply (f_equal String.length) in E. simpl in E. rewrite length_append in E. lia.
Qed.

Lemma strip_sound (suf s base : string) : Spec.strip suf s = Some base -> s = base ++ suf.
Proof.
  revert base; induction s as [|c s IH]; intros base.
  - simpl. destruct suf; simpl; [|discriminate]. now intros [= <-].
  - cbn [Spec.strip].
    destruct (String.eqb_spec (String c s) suf) as [E|_].
    + intros [= <-]. exact E.
    + destruct (Spec.strip suf s) as [b|]; [|discriminate].
      intros [= <-]. simpl. now rewrite <- (IH b eq_refl).
Qed.

Lemma strip_endsWith (suf s : string) :
  Spec.strip suf s =
  if endsWith s suf then Some (take (String.length s - String.length suf) s) else None.
Proof.
  destruct (endsWith s suf) eqn:E.
  - rewrite (endsWith_split _ _ E) at 1. apply strip_append.
  - destruct (Spec.strip suf s) as [b|] eqn:S; [|reflexivity].
    apply strip_sound in S. subst s. now rewrite endsWith_append in E.
Qed.

(** The specification's [suffix] against [endsWith] with a dotted suffix. *)
Lemma suffix_append (p e : string) :
  Spec.suffix e = None -> Spec.suffix (p ++ String "." e) = Some e.
Proof.
  intros He. induction p as [|c p IH]; simpl.
  - now rewrite He.
  - simpl in IH. now rewrite IH.
Qed.

Lemma suffix_split (s e : string) :
  Spec.suffix s = Some e -> exists p, s = p ++ String "." e.
Proof.
  revert e; induction s as [|c s IH]; intros e; simpl; [discriminate|].
  destruct (Spec.suffix s) as [e'|].
  - intros [= <-]. destruct (IH e' eq_refl) as [p ->]. now exists (String c p).
  - destruct (Ascii.eqb_spec c "."%char) as [->|_]; [|discriminate].
    intros [= <-]. now exists EmptyString.
Qed.

Lemma endsWith_suffix (s e : string) :
  Spec.suffix e = None ->
  (endsWith s (String "." e) = true <-> Spec.suffix s = Some e).
Proof.
  intros He. rewrite endsWith_iff. split.
  - intros [p ->]. now apply suffix_append.
  - apply suffix_split.
Qed.

(** [lastIndexOf] finds the dot of a trailing [.src]. *)
Lemma lastIndexOf_scan_src (p : string) (i fromIndex found : Z) :
  i + len p <= fromIndex ->
  lastIndexOf_scan "." (p ++ ".src") i fromIndex found = i + len p.
Proof.
  revert i found; induction p as [|c p IH]; intros i found Hle.
  - change (len EmptyString) with 0 in *. cbn.
    destruct (Z.leb_spec i fromIndex); [|lia]. lia.
  - cbn [String.append lastIndexOf_scan].
    replace (i + len (String c p)) with ((i + 1) + len p) in *
      by (unfold len; simpl String.length; lia).
    now apply IH.
Qed.

Lemma lastIndexOf_src (p : string) : lastIndexOf (p ++ ".src") "." = len p.
Proof.
  unfold lastIndexOf.
  assert (L : len (p ++ ".src") = len p + 4)
    by (unfold len; rewrite length_append; simpl; lia).
  assert (P : 0 <= len p) by (unfold len; lia).
  rewrite L. change (len ".") with 1.
  destruct (Z.eqb_spec 1 0); [lia|].
  destruct (Z.eqb_spec (len p + 4) 0); [lia|].
  destruct (Z.ltb_spec (len p + 4) 1); [lia|]. simpl orb. cbv iota.
  rewrite lastIndexOf_scan_src; lia.
Qed.

Lemma substring_src (p : string) :
  substring (p ++ ".src") 0 (lastIndexOf (p ++ ".src") ".") = p.
Proof.
  rewrite lastIndexOf_src. unfold substring, as_unsigned.
  assert (L : len (p ++ ".src") = len p + 4)
    by (unfold len; rewrite length_append; simpl; lia).
  assert (P : 0 <= len p) by (unfold len; lia).
  assert (N : (len p <? 0) = false) by (apply Z.ltb_ge; lia).
  assert (N1 : (len p + 4 <=? 0) = false) by (apply Z.leb_gt; lia).
  assert (N2 : (len p + 4 <? len p) = false) by (apply Z.ltb_ge; lia).
  rewrite L. change (0 <? 0) with false. cbv iota.
  rewrite N. cbv iota. rewrite N. cbv iota. rewrite N1, N2.
  rewrite Z.sub_0_r. unfold len. rewrite Nat2Z.id. simpl from_offset.
  apply take_append.
Qed.

End StringFacts.

(* ===================================================================== *)
(** ** Content-type resolution                                             *)
(* ===================================================================== *)

(** When a suffix test of the chain fails, the suffix of the path is not the
    tested one. *)
Lemma endsWith_false_suffix (s e e' : string) :
  Spec.suffix e = None ->
  endsWith s (String "." e) = false -> Spec.suffix s = Some e' -> e' <> e.
Proof.
  intros He F S ->. apply (endsWith_suffix s e He) in S. congruence.
Qed.

Ltac suffix_case E :=
  match type of E with
  | endsWith ?p (String "." ?e) = true =>
      apply (endsWith_suffix p e eq_refl) in E; rewrite E; reflexivity
  end.

Lemma resolve_chain (p : string) :
  (if endsWith p ".htm" then (p, "text/html")
   else if endsWith p ".css" then (p, "text/css")
   else if endsWith p ".js" then (p, "application/javascript")
   else if endsWith p ".png" then (p, "image/png")
   else if endsWith p ".gif" then (p, "image/gif")
   else if endsWith p ".jpg" then (p, "image/jpeg")
   else if endsWith p ".ico" then (p, "image/x-icon")
   else if endsWith p ".xml" then (p, "text/xml")
   else if endsWith p ".pdf" then (p, "application/pdf")
   else if endsWith p ".zip" then (p, "application/zip")
   else (p, "text/plain"))
  = match Spec.suffix p with
    | Some e =>
        match Spec.lookup e Spec.ContentTypeMapping with
        | Some mime => (p, mime)
        | None => (p, "text/plain")
        end
    | None => (p, "text/plain")
    end.
Proof.
  destruct (endsWith p ".htm") eqn:E1; [suffix_case E1|].
  destruct (endsWith p ".css") eqn:E2; [suffix_case E2|].
  destruct (endsWith p ".js") eqn:E3; [suffix_case E3|].
  destruct (endsWith p ".png") eqn:E4; [suffix_case E4|].
  destruct (endsWith p ".gif") eqn:E5; [suffix_case E5|].
  destruct (endsWith p ".jpg") eqn:E6; [suffix_case E6|].
  destruct (endsWith p ".ico") eqn:E7; [suffix_case E7|].
  destruct (endsWith p ".xml") eqn:E8; [suffix_case E8|].
  destruct (endsWith p ".pdf") eqn:E9; [suffix_case E9|].
  destruct (endsWith p ".zip") eqn:E10; [suffix_case E10|].
  destruct (Spec.suffix p) as [e|] eqn:S; [|reflexivity].
  unfold Spec.ContentTypeMapping, Spec.lookup.
  repeat match goal with
         | F : endsWith p (String "." ?k) = false |- context [String.eqb e ?k] =>
             destruct (String.eqb_spec e k) as [Heq|_];
             [ exfalso; exact (endsWith_false_suffix p k e eq_refl F S Heq) | clear F ]
         end.
  reflexivity.
Qed.

(** Deciding the suffix tests of the chain on a path with a known ending. *)
Ltac decide_endsWith :=
  repeat match goal with
         | |- context [endsWith (?base ++ ?ending) ?suffix] =>
             first
               [ rewrite (endsWith_append_short base ending suffix) by (cbn; lia);
                 let v := eval vm_compute in (endsWith ending suffix) in
                 change (endsWith ending suffix) with v; cbv iota
               | let E := fresh "E" in
                 destruct (endsWith (base ++ ending) suffix) eqn:E;
                 [ apply endsWith_append_long in E; [|cbn; lia];
                   vm_compute in E; discriminate E
                 | clear E ] ]
         end.

Lemma resolve_default_document (base : string) :
  resolveContentType (base ++ "/") = (base ++ "/index.htm", "text/html").
Proof.
  unfold resolveContentType. rewrite (endsWith_append base "/").
  rewrite (append_assoc base "/" "index.htm"). cbn [String.append].
  decide_endsWith. reflexivity.
Qed.

Lemma resolve_src (base : string) :
  resolveContentType (base ++ ".src") = (base, "text/plain").
Proof.
  unfold resolveContentType. decide_endsWith. now rewrite substring_src.
Qed.

Lemma resolve_table :
  Forall (fun entry =>
            forall base,
              resolveContentType (base ++ "." ++ fst entry)
              = (base ++ "." ++ fst entry, snd entry))
         Spec.ContentTypeMapping.
Proof.
  unfold Spec.ContentTypeMapping.
  repeat (constructor;
          [intros base; cbn [fst snd String.append]; unfold resolveContentType;
           decide_endsWith; reflexivity|]).
  constructor.
Qed.

(** C4.  The content-type resolution of [loadFromSdCard] is a total function
    of the path, and it is the resolver of the specification: for every path
    the two give the same resolved path and the same MIME type.  A path that
    ends in a slash gets [index.htm] appended (and is then an [.htm] path); a
    path that ends in [.src] loses that suffix and is served as text/plain,
    whatever the table says of what remains; a path that ends in a dot and a
    suffix of the table gets the MIME type of the table; a path without a dot,
    with an unknown suffix or with a known suffix in other letter case is
    served as text/plain.  In particular [foo.src] resolves to [foo] as
    text/plain, [foo.htm] to text/html, and [dir/] to [dir/index.htm]. *)
Theorem resolveContentType_refines_spec :
  (forall path, resolveContentType path = Spec.ContentTypeResolver path)
  /\ (forall base, resolveContentType (base ++ "/") = (base ++ "/index.htm", "text/html"))
  /\ (forall base, resolveContentType (base ++ ".src") = (base, "text/plain"))
  /\ Forall (fun entry =>
               forall base,
                 resolveContentType (base ++ "." ++ fst entry)
                 = (base ++ "." ++ fst entry, snd entry))
            [ ("htm", "text/html"); ("css", "text/css"); ("js", "application/javascript");
              ("png", "image/png"); ("gif", "image/gif"); ("jpg", "image/jpeg");
              ("ico", "image/x-icon"); ("xml", "text/xml"); ("pdf", "application/pdf");
              ("zip", "application/zip") ]
  /\ resolveContentType "foo" = ("foo", "text/plain")
  /\ resolveContentType "foo.HTM" = ("foo.HTM", "text/plain")
  /\ resolveContentType "foo.bin" = ("foo.bin", "text/plain")
  /\ resolveContentType "foo.src" = ("foo", "text/plain")
  /\ resolveContentType "foo.htm" = ("foo.htm", "text/html")
  /\ fst (resolveContentType "dir/") = "dir/index.htm".
Proof.
  split; [|split; [exact resolve_default_document|];
           split; [exact resolve_src|];
           split; [exact resolve_table|]; repeat split; reflexivity].
  intros path. unfold resolveContentType, Spec.ContentTypeResolver.
  rewrite (strip_endsWith "/" path).
  set (p := if endsWith path "/" then path ++ "index.htm" else path).
  replace (match (if endsWith path "/"
                  then Some (take (String.length path - String.length "/") path)
                  else None) with
           | Some _ => path ++ "index.htm"
           | None => path
           end) with p by (subst p; now destruct (endsWith path "/")).
  rewrite (strip_endsWith ".src" p).
  destruct (endsWith p ".src") eqn:E.
  - f_equal. rewrite (endsWith_split _ _ E) at 1 2. apply substring_src.
  - apply resolve_chain.
Qed.

(* ===================================================================== *)
(** ** Running the monad                                                   *)
(* ===================================================================== *)


Lemma bind_inv {A B} (m : M A) (k : A -> M B) (w w2 : World) (b : B) :
  bind m k w = Some (b, w2) ->
  exists a w1, m w = Some (a, w1) /\ k a w1 = Some (b, w2).
Proof.
  unfold bind. destruct (m w) as [[a w1]|]; [|discriminate]. now exists a, w1.
Qed.

(** Unfolding the primitives of the model down to their effect on the world. *)
Ltac run :=
  repeat (progress (unfold bind, ret, ask, emit, no_result, returnFail, returnOK,
                      server_uri, server_method, server_args, server_hasArg,
                      server_arg, server_argName, server_arg_at,
                      server_setContentLength, server_send, server_sendContent,
                      server_sendContent_P, Serial_print, Serial_println,
                      SD_numSectors, SD_sectorSize, SD_exists, alloc_handle,
                      free_handle; cbn)).

(** [with_trace] and the projections. *)
Lemma with_trace_id (w : World) : with_trace (w_trace w) w = w.
Proof. now destruct w. Qed.

Lemma forget_fresh (h : nat) (l : list nat) :
  Forall (fun x => (x < h)%nat) l -> forget h l = l.
Proof.
  induction 1 as [|x l Hx _ IH]; [reflexivity|].
  unfold forget in *. simpl. rewrite IH.
  destruct (Nat.eqb_spec x h); [lia | reflexivity].
Qed.

Lemma forget_head (h : nat) (l : list nat) :
  forget h (h :: l) = forget h l.
Proof. unfold forget. simpl. now rewrite Nat.eqb_refl. Qed.

Lemma forget_opened (w : World) :
  handles_ok w -> forget (w_next w) (w_next w :: w_open w) = w_open w.
Proof. intros H. rewrite forget_head. now apply forget_fresh. Qed.

Lemma forget_other (h x : nat) (l : list nat) :
  x <> h -> forget h (x :: l) = x :: forget h l.
Proof.
  intros N. unfold forget. simpl. destruct (Nat.eqb_spec x h); [contradiction | reflexivity].
Qed.

Lemma forget_opened_twice (w : World) :
  handles_ok w ->
  forget (S (w_next w)) (forget (w_next w) (S (w_next w) :: w_next w :: w_open w))
  = w_open w.
Proof.
  intros H. rewrite forget_other by lia. rewrite forget_opened by exact H.
  rewrite forget_head. apply forget_fresh.
  eapply Forall_impl; [|exact H]. cbn. intros; lia.
Qed.


(* ===================================================================== *)
(** ** What no handler touches                                             *)
(* ===================================================================== *)

Section Frame.

Context {A B : Type}.

Lemma keeps_ret (a : A) : keeps (ret a).
Proof. intros w a' w' [= <- <-]. auto. Qed.

Lemma keeps_no_result : keeps (@no_result A).
Proof. intros w a w' H. discriminate H. Qed.

Lemma keeps_ask (f : World -> A) : keeps (ask f).
Proof. intros w a w' [= <- <-]. auto. Qed.

Lemma keeps_bind (m : M A) (k : A -> M B) :
  keeps m -> (forall a, keeps (k a)) -> keeps (bind m k).
Proof.
  intros Hm Hk w b w2 H. apply bind_inv in H as (a & w1 & H1 & H2).
  destruct (Hm _ _ _ H1) as (E1 & R1 & F1 & N1).
  destruct (Hk a _ _ _ H2) as (E2 & R2 & F2 & N2).
  repeat split; congruence.
Qed.

End Frame.

Lemma assignments_snoc (t : list Event) (e : Event) :
  assignments (t ++ [e]) =
  (assignments t + match e with AssignHasSD _ => 1 | _ => 0 end)%nat.
Proof.
  unfold assignments. rewrite filter_app, length_app. destruct e; reflexivity.
Qed.

Lemma keeps_emit (e : Event) :
  match e with AssignHasSD _ => False | _ => True end -> keeps (emit e).
Proof.
  intros He w a w' [= <- <-].
  cbn [w_env w_request w_hasSD w_trace with_trace]. rewrite assignments_snoc.
  destruct e; try contradiction; rewrite Nat.add_0_r; auto.
Qed.

Lemma keeps_alloc : keeps alloc_handle.
Proof. intros w a w' [= <- <-]. auto. Qed.

Lemma keeps_free (h : nat) : keeps (free_handle h).
Proof. intros w a w' [= <- <-]. auto. Qed.

(** Taking a computation apart down to the primitives. *)
Ltac keeps_step :=
  first
    [ apply keeps_ret | apply keeps_emit; exact I | apply keeps_ask | apply keeps_no_result
    | apply keeps_alloc | apply keeps_free
    | apply keeps_bind; [|intros ?]
    | match goal with
      | |- keeps (if ?b then _ else _) => destruct b
      | |- keeps (match ?x with _ => _ end) => destruct x
      end
    | progress unfold SD_open, SD_exists, SD_readRAW, SD_numSectors, SD_sectorSize,
        open_node, File_close, File_drop, File_assign, File_rewindDirectory,
        File_openNextFile, server_streamFile, server_uri, server_method,
        server_args, server_hasArg, server_arg, server_argName, server_arg_at,
        server_setContentLength, server_send, server_sendContent,
        server_sendContent_P, Serial_print, Serial_println, returnFail, returnOK ].

Ltac keeps_all := repeat keeps_step.

Lemma keeps_loadFromSdCard (path : string) : keeps (loadFromSdCard path).
Proof. unfold loadFromSdCard. keeps_all. Qed.

Lemma keeps_streamRaw_loop (fuel : nat) :
  forall sectors sectorSize sector data,
    keeps (streamRaw_loop fuel sectors sectorSize sector data).
Proof.
  induction fuel as [|fuel IH]; intros; cbn [streamRaw_loop]; keeps_all. apply IH.
Qed.

Lemma keeps_streamRaw (fuel : nat) : keeps (streamRaw fuel).
Proof. unfold streamRaw. keeps_all. apply keeps_streamRaw_loop. Qed.

Lemma keeps_printDirectory_loop (fuel : nat) :
  forall cnt dir, keeps (printDirectory_loop fuel cnt dir).
Proof.
  induction fuel as [|fuel IH]; intros; cbn [printDirectory_loop]; keeps_all.
  apply IH.
Qed.

Lemma keeps_printDirectory (fuel : nat) : keeps (printDirectory fuel).
Proof.
  unfold printDirectory. keeps_all; try apply keeps_printDirectory_loop.
Qed.

Lemma keeps_handleNotFound_loop (fuel : nat) :
  forall i message, keeps (handleNotFound_loop fuel i message).
Proof.
  induction fuel as [|fuel IH]; intros; cbn [handleNotFound_loop]; keeps_all.
  apply IH.
Qed.

Lemma keeps_handleNotFound (fuel : nat) : keeps (handleNotFound fuel).
Proof.
  unfold handleNotFound. keeps_all;
    try apply keeps_loadFromSdCard; try apply keeps_handleNotFound_loop.
Qed.
(* ===================================================================== *)
(** ** The handles stay in order                                           *)
(* ===================================================================== *)

Section Tidy.

Context {A B : Type}.

Lemma tidy_ret (a : A) : tidy (ret a).
Proof. intros w a' w' H [= <- <-]. exact H. Qed.

Lemma tidy_no_result : tidy (@no_result A).
Proof. intros w a w' _ H. discriminate H. Qed.

Lemma tidy_ask (f : World -> A) : tidy (ask f).
Proof. intros w a w' H [= <- <-]. exact H. Qed.

Lemma tidy_bind (m : M A) (k : A -> M B) :
  tidy m -> (forall a, tidy (k a)) -> tidy (bind m k).
Proof.
  intros Hm Hk w b w2 Hok H. apply bind_inv in H as (a & w1 & H1 & H2).
  exact (Hk a _ _ _ (Hm _ _ _ Hok H1) H2).
Qed.

End Tidy.

Lemma tidy_emit (e : Event) : tidy (emit e).
Proof. intros w a w' H [= <- <-]. exact H. Qed.

Lemma tidy_alloc : tidy alloc_handle.
Proof.
  intros w a w' H [= <- <-]. unfold handles_ok in *. cbn. constructor; [lia|].
  eapply Forall_impl; [|exact H]. cbn. intros; lia.
Qed.

Lemma forget_sublist (h : nat) (l : list nat) (P : nat -> Prop) :
  Forall P l -> Forall P (forget h l).
Proof.
  intros H. unfold forget. apply Forall_forall. intros x I.
  apply filter_In in I as [I _]. rewrite Forall_forall in H. now apply H.
Qed.

Lemma tidy_free (h : nat) : tidy (free_handle h).
Proof.
  intros w a w' H [= <- <-]. unfold handles_ok in *. cbn. now apply forget_sublist.
Qed.

Lemma tidy_with_hasSD (b : bool) : tidy (fun w => Some (tt, with_hasSD b w)).
Proof. intros w a w' H [= <- <-]. exact H. Qed.

Lemma tidy_with_request (r : Request) : tidy (fun w => Some (tt, with_request r w)).
Proof. intros w a w' H [= <- <-]. exact H. Qed.

Ltac tidy_step :=
  first
    [ apply tidy_ret | apply tidy_emit | apply tidy_ask | apply tidy_no_result
    | apply tidy_alloc | apply tidy_free | apply tidy_with_hasSD
    | apply tidy_with_request
    | apply tidy_bind; [|intros ?]
    | match goal with
      | |- tidy (if ?b then _ else _) => destruct b
      | |- tidy (match ?x with _ => _ end) => destruct x
      end
    | progress unfold SD_open, SD_exists, SD_readRAW, SD_numSectors, SD_sectorSize,
        open_node, File_close, File_drop, File_assign, File_rewindDirectory,
        File_openNextFile, server_streamFile, server_uri, server_method,
        server_args, server_hasArg, server_arg, server_argName, server_arg_at,
        server_setContentLength, server_send, server_sendContent,
        server_sendContent_P, Serial_print, Serial_println, returnFail, returnOK ].

Ltac tidy_all := repeat tidy_step.

Lemma tidy_loadFromSdCard (path : string) : tidy (loadFromSdCard path).
Proof. unfold loadFromSdCard. tidy_all. Qed.

Lemma tidy_streamRaw (fuel : nat) : tidy (streamRaw fuel).
Proof.
  assert (L : forall fuel sectors sectorSize sector data,
             tidy (streamRaw_loop fuel sectors sectorSize sector data)).
  { clear fuel. induction fuel as [|fuel IH]; intros; cbn [streamRaw_loop]; tidy_all.
    apply IH. }
  unfold streamRaw. tidy_all. apply L.
Qed.

Lemma tidy_printDirectory (fuel : nat) : tidy (printDirectory fuel).
Proof.
  assert (L : forall fuel cnt dir, tidy (printDirectory_loop fuel cnt dir)).
  { clear fuel. induction fuel as [|fuel IH]; intros; cbn [printDirectory_loop];
      tidy_all. apply IH. }
  unfold printDirectory. tidy_all; try apply L.
Qed.

Lemma tidy_handleNotFound (fuel : nat) : tidy (handleNotFound fuel).
Proof.
  assert (L : forall fuel i message, tidy (handleNotFound_loop fuel i message)).
  { clear fuel. induction fuel as [|fuel IH]; intros; cbn [handleNotFound_loop];
      tidy_all. apply IH. }
  unfold handleNotFound. tidy_all; try apply tidy_loadFromSdCard; try apply L.
Qed.

Lemma tidy_handleClient (fuel : nat) (request : Request) :
  tidy (handleClient fuel request).
Proof.
  unfold handleClient. apply tidy_bind; [apply tidy_with_request | intros _].
  destruct (_ && _); [apply tidy_printDirectory|].
  destruct (_ && _); [apply tidy_streamRaw | apply tidy_handleNotFound].
Qed.

Lemma tidy_serve (fuel : nat) (requests : list Request) : tidy (serve fuel requests).
Proof.
  induction requests as [|request rest IH]; cbn [serve]; [apply tidy_ret|].
  apply tidy_bind; [apply tidy_handleClient | intros _].
  apply tidy_bind; [apply tidy_emit | intros _]. exact IH.
Qed.

Lemma tidy_setup (fuel : nat) : tidy (setup fuel).
Proof.
  assert (L : forall fuel poll i, tidy (wifi_wait fuel poll i)).
  { clear fuel. induction fuel as [|fuel IH]; intros; cbn [wifi_wait]; tidy_all.
    apply IH. }
  unfold setup. tidy_all; try apply L.
Qed.

(** In every world the sketch reaches, every open handle was given out by the
    driver before the next one it will give out: the hypothesis [handles_ok]
    of the theorems on handles holds wherever a handler runs. *)
Lemma handles_ok_reachable (env : Env) (fuel : nat) (requests : list Request) (w : World) :
  run fuel requests (boot_world env) = Some (tt, w) -> handles_ok w.
Proof.
  intros H. apply bind_inv in H as ([] & w1 & H1 & H2).
  apply (tidy_serve fuel requests w1 tt w); [|exact H2].
  apply (tidy_setup fuel (boot_world env) tt w1); [constructor | exact H1].
Qed.
(* ===================================================================== *)
(** ** [/list]: the error exits                                            *)
(* ===================================================================== *)

Lemma hasArg_absent (name : string) (args : list (string * string)) :
  (forall value, ~ In (name, value) args) ->
  existsb (fun kv => String.eqb (fst kv) name) args = false.
Proof.
  intros H. induction args as [|[k v] args IH]; [reflexivity|].
  simpl. destruct (String.eqb_spec k name) as [->|_].
  - exfalso. apply (H v). now left.
  - apply IH. intros value I. apply (H value). now right.
Qed.


(** C7, as the specification has it, fails: the body that [returnFail] sends
    is not the bare text.  A [GET /list] without arguments is answered with
    the text followed by a carriage return and a line feed. *)
Lemma printDirectory_bad_args_body_is_not_bare :
  option_map body_text
    (events_of (printDirectory 1) (sample_world "/list" HTTP_GET []))
  <> Some "BAD ARGS".
Proof. vm_compute. discriminate. Qed.

(** C7, amended.  On every request to [/list] whose query arguments do not
    include [dir], the handler sends one response, with status 500, type
    text/plain and the body [BAD ARGS] followed by CR LF, and it does nothing
    else: no call on the filesystem comes before or after, and the world is
    otherwise as it was. *)
Theorem printDirectory_without_dir (fuel : nat) (w : World) :
  (forall value, ~ In ("dir", value) (req_args (w_request w))) ->
  exists evs,
    printDirectory fuel w = Some (tt, with_trace (w_trace w ++ evs) w)
    /\ evs = [Send 500 "text/plain" ("BAD ARGS" ++ CRLF)]
    /\ status_code evs = Some 500
    /\ body_text evs = "BAD ARGS" ++ CRLF
    /\ filter is_fs_event evs = [].
Proof.
  intros H. eexists. split; [|repeat split; reflexivity].
  unfold printDirectory. run. now rewrite (hasArg_absent _ _ H).
Qed.

Lemma printDirectory_without_dir_witness :
  exists evs,
    printDirectory 1 (sample_world "/list" HTTP_GET [("path", "/")]) =
      Some (tt, with_trace (w_trace (sample_world "/list" HTTP_GET [("path", "/")]) ++ evs)
                  (sample_world "/list" HTTP_GET [("path", "/")]))
    /\ evs = [Send 500 "text/plain" ("BAD ARGS" ++ CRLF)]
    /\ status_code evs = Some 500
    /\ body_text evs = "BAD ARGS" ++ CRLF
    /\ filter is_fs_event evs = [].
Proof.
  apply (printDirectory_without_dir 1 (sample_world "/list" HTTP_GET [("path", "/")])).
  intros value [E|[]]. discriminate E.
Defined.

Lemma find_existsb {A} (f : A -> bool) (l : list A) (x : A) :
  find f l = Some x -> existsb f l = true.
Proof.
  intros H. apply existsb_exists. exists x.
  split; [eapply find_some; eauto | eapply (find_some f l); eauto].
Qed.

(** On the [NOT DIR] exit the response is the last event, and by then
    everything that was opened has been closed. *)
Lemma not_dir_events_order (path : string) (node : option Node) (next : nat) :
  exists before,
    not_dir_events path node next =
      (before ++ [Send 500 "text/plain" ("NOT DIR" ++ CRLF)])%list
    /\ closed before = opened before
    /\ (forall code content_type content, ~ In (Send code content_type content) before).
Proof.
  unfold not_dir_events.
  exists ((if String.eqb path "/" then [] else [SdExists path])
          ++ match node with
             | Some _ => [SdOpen path (Some next); FileClose next]
             | None => [SdOpen path None]
             end)%list.
  split; [now rewrite app_assoc|].
  destruct (String.eqb path "/"), node; cbn; (split; [reflexivity|]);
    intros code content_type content I;
    repeat (destruct I as [I|I]; [discriminate I|]); exact I.
Qed.

(** C8.  On every request to [/list] whose [dir] argument passes the
    existence test and opens to something that is not a directory, the handler
    answers with [returnFail("NOT DIR")]; what [SD.open] opened is closed
    before that response is sent, the driver holds no more handles open
    afterwards than before, and nothing of a listing is sent. *)
Theorem printDirectory_not_dir (fuel : nat) (w : World) (key path : string) :
  handles_ok w ->
  find (fun kv => String.eqb (fst kv) "dir") (req_args (w_request w)) = Some (key, path) ->
  path = "/" \/ card_lookup (env_card (w_env w)) path <> None ->
  (forall entries, card_lookup (env_card (w_env w)) path <> Some (NDir entries)) ->
  exists w' evs,
    printDirectory fuel w = Some (tt, w')
    /\ w_trace w' = (w_trace w ++ evs)%list
    /\ evs = not_dir_events path (card_lookup (env_card (w_env w)) path) (w_next w)
    /\ w_open w' = w_open w
    /\ closed evs = opened evs
    /\ (forall content, ~ In (SendContent content) evs)
    /\ (exists before,
          evs = (before ++ [Send 500 "text/plain" ("NOT DIR" ++ CRLF)])%list
          /\ closed before = opened before
          /\ (forall code content_type content,
                ~ In (Send code content_type content) before)).
Proof.
  intros Hok Hfind Hex Hnd.
  assert (Horder := not_dir_events_order path
                      (card_lookup (env_card (w_env w)) path) (w_next w)).
  unfold not_dir_events in Horder.
  assert (Hhas := find_existsb _ _ _ Hfind).
  unfold printDirectory, not_dir_events, SD_open, open_node, File_close, File_drop.
  run. rewrite Hhas. run. rewrite Hfind. cbn.
  destruct (card_lookup (env_card (w_env w)) path) as [[size|entries]|] eqn:L.
  - destruct (String.eqb_spec path "/") as [E|Hne];
      repeat (progress (rewrite ?L; cbn));
      do 2 eexists; (split; [reflexivity|]); cbn; rewrite <- ?app_assoc; cbn;
      (split; [reflexivity|]); (split; [reflexivity|]);
      (split; [now apply forget_opened|]);
      (split; [reflexivity|]);
      (split; [|exact Horder]);
      intros content I; repeat (destruct I as [I|I]; [discriminate I|]); exact I.
  - now destruct (Hnd entries).
  - destruct (String.eqb_spec path "/") as [E|Hne].
    + repeat (progress (rewrite ?L; cbn)).
      do 2 eexists; (split; [reflexivity|]); cbn; rewrite <- ?app_assoc; cbn.
      repeat (split; [reflexivity|]).
      split; [|exact Horder].
      intros content I; repeat (destruct I as [I|I]; [discriminate I|]); exact I.
    + destruct Hex as [->|Hex]; congruence.
Qed.

Lemma printDirectory_not_dir_witness :
  exists w' evs,
    printDirectory 1 (sample_world "/list" HTTP_GET [("dir", "/a.txt")]) = Some (tt, w')
    /\ w_trace w' = ([] ++ evs)%list
    /\ evs = [SdExists "/a.txt"; SdOpen "/a.txt" (Some 0%nat); FileClose 0;
              Send 500 "text/plain" ("NOT DIR" ++ CRLF)]
    /\ w_open w' = []
    /\ closed evs = opened evs
    /\ (forall content, ~ In (SendContent content) evs)
    /\ (exists before,
          evs = (before ++ [Send 500 "text/plain" ("NOT DIR" ++ CRLF)])%list
          /\ closed before = opened before
          /\ (forall code content_type content,
                ~ In (Send code content_type content) before)).
Proof.
  apply (printDirectory_not_dir 1 (sample_world "/list" HTTP_GET [("dir", "/a.txt")])
           "dir" "/a.txt").
  - constructor.
  - reflexivity.
  - right. discriminate.
  - intros entries. discriminate.
Defined.
(* ===================================================================== *)
(** ** [/raw]: the sector stream                                           *)
(* ===================================================================== *)

Section RawStream.


Lemma firstn_repeat_app {A} (x : A) (n : nat) (rest : list A) :
  firstn n (repeat x n ++ rest) = repeat x n.
Proof.
  rewrite firstn_app, repeat_length, Nat.sub_diag, firstn_O, app_nil_r.
  apply firstn_all2. now rewrite repeat_length.
Qed.

(** What is sent for a sector that cannot be read: the buffer is the marker
    from its first byte to its last, whatever the failed read left in it. *)
Lemma marker_buffer (data : list byte) (size : Z) :
  firstn (Z.to_nat size) (memset data DAMAGEDSECTOR size) = repeat xe5 (Z.to_nat size).
Proof. unfold memset. apply firstn_repeat_app. Qed.

Variable c : Card.
Hypothesis Hc : card_ok c.

Let sectors := card_numSectors c.
Let sectorSize := card_sectorSize c.

(** The loop, from sector [k] with [n] sectors to go. *)
Lemma streamRaw_loop_events (n : nat) :
  forall (fuel : nat) (k : Z) (data : list byte) (w : World),
    env_card (w_env w) = c ->
    (n < fuel)%nat -> 0 <= k -> k + Z.of_nat n = sectors ->
    streamRaw_loop fuel sectors sectorSize k data w =
    Some (tt, with_trace (w_trace w ++ flat_map (sector_events c) (indices_from k n)) w).
Proof.
  destruct Hc as (Hs & Hz & Hlen).
  induction n as [|n IH]; intros fuel k data w Hw Hf Hk Hn;
    (destruct fuel as [|fuel]; [lia|]); cbn [streamRaw_loop].
  - destruct (Z.ltb_spec k sectors) as [H|_]; [lia|].
    cbn. now rewrite app_nil_r, with_trace_id.
  - destruct (Z.ltb_spec k sectors) as [Hlt|H]; [|lia].
    assert (Hnext : Platform.to_uint64 (k + 1) = k + 1).
    { unfold Platform.to_uint64, Platform.wrap. apply Z.mod_small.
      fold sectors in Hs. lia. }
    rewrite Hnext. cbn [indices_from flat_map].
    assert (Hev : sector_events c k =
                  match card_sector c k with
                  | Some content => [SdReadRAW k true; SendContent_P content]
                  | None =>
                      [SdReadRAW k false; SerialPrint "Error reading sector ";
                       SerialPrint (of_int k ++ CRLF);
                       SendContent_P (repeat xe5 (Z.to_nat sectorSize))]
                  end) by reflexivity.
    rewrite Hev. clear Hev.
    unfold SD_readRAW. run. rewrite Hw.
    destruct (card_sector c k) as [content|] eqn:R; run.
    + rewrite (IH fuel (k + 1)); [|exact Hw|lia|lia|lia].
      cbn [with_trace w_trace w_env w_request w_hasSD w_open w_next].
      rewrite <- !app_assoc. cbn [app].
      rewrite firstn_all2; [reflexivity|].
      assert (L := Hlen k content (conj Hk Hlt) R). fold sectorSize in L.
      apply Nat2Z.inj_le. rewrite L. lia.
    + rewrite (IH fuel (k + 1)); [|exact Hw|lia|lia|lia].
      cbn [with_trace w_trace w_env w_request w_hasSD w_open w_next].
      rewrite <- !app_assoc. cbn [app].
      now rewrite marker_buffer.
Qed.

(** The whole handler: the header, then every sector from 0 on. *)
Lemma streamRaw_events (fuel : nat) (w : World) :
  env_card (w_env w) = c ->
  (Z.to_nat sectors < fuel)%nat ->
  streamRaw fuel w =
  Some (tt, with_trace
              (w_trace w ++ streamRaw_header c
               ++ flat_map (sector_events c) (sector_indices sectors)) w).
Proof.
  intros Hw Hf. unfold streamRaw. run. rewrite Hw. fold sectors sectorSize.
  rewrite streamRaw_loop_events with (n := Z.to_nat sectors);
    [|exact Hw|exact Hf|lia|destruct Hc as (Hs & _); fold sectors in Hs; lia].
  cbn. unfold streamRaw_header, sector_indices. fold sectors sectorSize.
  rewrite <- !app_assoc. reflexivity.
Qed.

Lemma streamRaw_events_of (fuel : nat) (w : World) :
  env_card (w_env w) = c ->
  (Z.to_nat sectors < fuel)%nat ->
  events_of (streamRaw fuel) w =
  Some (streamRaw_header c ++ flat_map (sector_events c) (sector_indices sectors))%list.
Proof.
  intros Hw Hf. unfold events_of.
  rewrite streamRaw_events; [reflexivity | exact Hw | exact Hf].
Qed.

(** What the events of the loop show to the client and to the card. *)
Lemma body_bytes_app (a b : list Event) :
  body_bytes (a ++ b) = (body_bytes a ++ body_bytes b)%list.
Proof. unfold body_bytes. now rewrite map_app, concat_app. Qed.

Lemma body_bytes_sectors (l : list Z) :
  body_bytes (flat_map (sector_events c) l) = List.concat (map (sector_chunk c) l).
Proof.
  induction l as [|i l IH]; [reflexivity|].
  cbn [flat_map map List.concat]. rewrite body_bytes_app, IH. f_equal.
  unfold sector_events, sector_chunk.
  destruct (card_sector c i); cbn; now rewrite app_nil_r.
Qed.

Lemma sectors_read_sectors (l : list Z) :
  sectors_read (flat_map (sector_events c) l) = l.
Proof.
  unfold sectors_read.
  induction l as [|i l IH]; [reflexivity|].
  cbn [flat_map]. rewrite flat_map_app, IH.
  unfold sector_events. destruct (card_sector c i); reflexivity.
Qed.

Lemma sector_chunk_length (i : Z) :
  0 <= i < sectors -> List.length (sector_chunk c i) = Z.to_nat sectorSize.
Proof.
  intros Hi. destruct Hc as (_ & _ & Hlen). unfold sector_chunk.
  destruct (card_sector c i) as [content|] eqn:R.
  - apply Nat2Z.inj. rewrite (Hlen i content Hi R).
    destruct Hc as (_ & Hz & _). subst sectorSize. lia.
  - apply repeat_length.
Qed.

End RawStream.

(** Cutting a stream of chunks of one length [m] at a multiple of [m] gives a
    whole chunk. *)
Lemma chunk_at (f : Z -> list byte) (m : nat) (n : nat) :
  forall (k : Z) (i : nat),
    (i < n)%nat ->
    (forall j, k <= j < k + Z.of_nat n -> List.length (f j) = m) ->
    firstn m (skipn (i * m) (List.concat (map f (indices_from k n)))) = f (k + Z.of_nat i).
Proof.
  induction n as [|n IH]; intros k i Hi Hlen; [lia|].
  cbn [indices_from map List.concat].
  assert (Hk : List.length (f k) = m) by (apply Hlen; lia).
  destruct i as [|i].
  - cbn [Nat.mul skipn]. rewrite Z.add_0_r.
    rewrite firstn_app, Hk, Nat.sub_diag, firstn_O, app_nil_r.
    apply firstn_all2. lia.
  - rewrite skipn_app, Hk.
    rewrite (skipn_all2 (f k)) by (rewrite Hk; cbn; lia).
    cbn [app]. replace (S i * m - m)%nat with (i * m)%nat by (cbn; lia).
    rewrite IH; [f_equal; lia | lia |].
    intros j Hj. apply Hlen. lia.
Qed.

Lemma chunks_length (f : Z -> list byte) (m : nat) (n : nat) :
  forall (k : Z),
    (forall j, k <= j < k + Z.of_nat n -> List.length (f j) = m) ->
    List.length (List.concat (map f (indices_from k n))) = (n * m)%nat.
Proof.
  induction n as [|n IH]; intros k Hlen; [reflexivity|].
  cbn [indices_from map List.concat]. rewrite length_app, IH.
  - rewrite (Hlen k) by lia. reflexivity.
  - intros j Hj. apply Hlen. lia.
Qed.

(** C1.  For every card the driver can describe and every sector index [i]
    below the sector count, the bytes of the raw stream from [i * sectorSize]
    up to [(i + 1) * sectorSize] are the content of sector [i] when the sector
    can be read, and [sectorSize] times the marker byte 0xE5 when it cannot:
    never a mix, never another length.  The handler asks the card for the
    sectors 0, 1, ... in ascending order, each one once, and the stream is
    their chunks in that order. *)
Theorem streamRaw_sector_ranges (w : World) :
  card_ok (env_card (w_env w)) ->
  exists evs,
    events_of (streamRaw (S (Z.to_nat (card_numSectors (env_card (w_env w)))))) w = Some evs
    /\ sectors_read evs = sector_indices (card_numSectors (env_card (w_env w)))
    /\ body_bytes evs =
       List.concat (map (sector_chunk (env_card (w_env w)))
                      (sector_indices (card_numSectors (env_card (w_env w)))))
    /\ forall i, 0 <= i < card_numSectors (env_card (w_env w)) ->
         slice (i * card_sectorSize (env_card (w_env w)))
               (card_sectorSize (env_card (w_env w))) (body_bytes evs)
         = match card_sector (env_card (w_env w)) i with
           | Some content => content
           | None => repeat xe5 (Z.to_nat (card_sectorSize (env_card (w_env w))))
           end.
Proof.
  intros Hc. set (c := env_card (w_env w)) in *.
  eexists. split; [apply (streamRaw_events_of c Hc); [reflexivity | lia]|].
  assert (Hbody : body_bytes (streamRaw_header c
                                ++ flat_map (sector_events c)
                                     (sector_indices (card_numSectors c)))
                  = List.concat (map (sector_chunk c) (sector_indices (card_numSectors c)))).
  { rewrite body_bytes_app. apply body_bytes_sectors. }
  split; [|split; [exact Hbody|]].
  - unfold sectors_read. rewrite flat_map_app. apply (sectors_read_sectors c).
  - intros i Hi. rewrite Hbody. unfold slice, sector_indices.
    destruct Hc as (Hs & Hz & Hlen).
    replace (Z.to_nat (i * card_sectorSize c))
      with (Z.to_nat i * Z.to_nat (card_sectorSize c))%nat
      by (rewrite Z2Nat.inj_mul; lia).
    rewrite (chunk_at (sector_chunk c) (Z.to_nat (card_sectorSize c))).
    + rewrite Z.add_0_l, Z2Nat.id by lia. reflexivity.
    + lia.
    + intros j Hj. apply sector_chunk_length; [now repeat split | lia].
Qed.

Lemma sample_card_ok : card_ok sample_card.
Proof.
  split; [cbn; lia|]. split; [cbn; lia|].
  intros i d _. cbn. destruct (i =? 2); [discriminate|]. now intros [= <-].
Qed.

Lemma streamRaw_sector_ranges_witness :
  exists evs,
    events_of (streamRaw 5) (sample_world "/raw" HTTP_GET []) = Some evs
    /\ sectors_read evs = [0; 1; 2; 3]
    /\ body_bytes evs = [x01; x02; x01; x02; xe5; xe5; x01; x02]
    /\ forall i, 0 <= i < 4 ->
         slice (i * 2) 2 (body_bytes evs)
         = match (if i =? 2 then None else Some [x01; x02]) with
           | Some content => content
           | None => [xe5; xe5]
           end.
Proof.
  apply (streamRaw_sector_ranges (sample_world "/raw" HTTP_GET [])).
  exact sample_card_ok.
Defined.

(** The length [streamRaw] declares and the length it sends, for every card:
    the declared one is the product cut to the 32 bits of [size_t], the sent
    one is the product. *)
Lemma streamRaw_lengths (w : World) :
  card_ok (env_card (w_env w)) ->
  exists evs,
    events_of (streamRaw (S (Z.to_nat (card_numSectors (env_card (w_env w)))))) w = Some evs
    /\ declared_length evs =
       Some ((card_numSectors (env_card (w_env w)) * card_sectorSize (env_card (w_env w)))
             mod 2 ^ 32)
    /\ Z.of_nat (List.length (body_bytes evs)) =
       card_numSectors (env_card (w_env w)) * card_sectorSize (env_card (w_env w)).
Proof.
  intros Hc. set (c := env_card (w_env w)) in *.
  eexists. split; [apply (streamRaw_events_of c Hc); [reflexivity | lia]|].
  destruct Hc as (Hs & Hz & Hlen). split.
  - unfold streamRaw_header, declared_length. cbn [app filter].
    unfold Platform.to_size_t, Platform.to_uint64, Platform.wrap, Platform.SIZE_BITS.
    f_equal. apply Z.mod_mod_divide. exists (2 ^ 32). reflexivity.
  - rewrite body_bytes_app, body_bytes_sectors by (now repeat split).
    change (body_bytes (streamRaw_header c)) with (@nil byte). cbn [app].
    unfold sector_indices.
    rewrite (chunks_length (sector_chunk c) (Z.to_nat (card_sectorSize c))).
    + rewrite Nat2Z.inj_mul, !Z2Nat.id by lia. reflexivity.
    + intros j Hj. apply sector_chunk_length; [now repeat split | lia].
Qed.

(** When the product fits [size_t], the two lengths agree. *)
Lemma streamRaw_lengths_agree (w : World) :
  card_ok (env_card (w_env w)) ->
  card_numSectors (env_card (w_env w)) * card_sectorSize (env_card (w_env w)) < 2 ^ 32 ->
  exists evs,
    events_of (streamRaw (S (Z.to_nat (card_numSectors (env_card (w_env w)))))) w = Some evs
    /\ declared_length evs = Some (Z.of_nat (List.length (body_bytes evs))).
Proof.
  intros Hc Hfit. destruct (streamRaw_lengths w Hc) as (evs & He & Hd & Hb).
  exists evs. split; [exact He|]. rewrite Hd, Hb. f_equal.
  apply Z.mod_small. destruct Hc as (Hs & Hz & _). nia.
Qed.

Lemma sdhc_card_ok : card_ok sdhc_card.
Proof.
  split; [cbn; lia|]. split; [cbn; lia|].
  intros i d _. cbn [sdhc_card card_sector card_sectorSize].
  intros E. assert (D : d = repeat x00 512%nat) by congruence.
  rewrite D, repeat_length. reflexivity.
Qed.

(** C2 fails on the code.  On a card of 15523840 sectors of 512 bytes the
    handler sends 7948206080 bytes, which is the product, and declares a
    content length of 3653238784, which is the product cut to 32 bits. *)
Theorem streamRaw_declared_length_wraps :
  exists evs,
    events_of (streamRaw (S (Z.to_nat (card_numSectors sdhc_card)))) sdhc_world = Some evs
    /\ declared_length evs = Some 3653238784
    /\ Z.of_nat (List.length (body_bytes evs)) = 7948206080
    /\ card_numSectors sdhc_card * card_sectorSize sdhc_card = 7948206080.
Proof.
  destruct (streamRaw_lengths sdhc_world sdhc_card_ok) as (evs & He & Hd & Hb).
  exists evs. split; [exact He|]. split; [exact Hd|]. split; [exact Hb|reflexivity].
Qed.
(* ===================================================================== *)
(** ** The static-file handler                                             *)
(* ===================================================================== *)

(** C5.  On every request, every handle that [loadFromSdCard] opens is closed
    when it returns: the driver holds the same handles open after the call as
    before it, on the return that reports the file as not found, on the return
    after streaming, and on both of them when the first entry opened was a
    directory and [index.htm] below it was opened instead.  The file that is
    streamed is closed by [close()]; the handle of the directory is released
    when [dataFile] is overwritten, as [File_drop] describes. *)
Theorem loadFromSdCard_closes_handles (path : string) (w : World) :
  handles_ok w ->
  exists served w' evs,
    loadFromSdCard path w = Some (served, w')
    /\ w_trace w' = (w_trace w ++ evs)%list
    /\ w_open w' = w_open w
    /\ (forall h, In h (opened evs) -> In h (closed evs)).
Proof.
  intros Hok. unfold loadFromSdCard.
  destruct (resolveContentType path) as [p dataType].
  unfold SD_open, open_node, File_assign, File_drop, File_close, server_streamFile.
  run.
  destruct (card_lookup (env_card (w_env w)) p) as [[size|entries]|] eqn:L1; run.
  - destruct (negb (Platform.to_size_t (env_streamed (w_env w) p) =? size));
      do 3 eexists; (split; [reflexivity|]); cbn; rewrite <- ?app_assoc; cbn;
      (split; [reflexivity|]); (split; [now apply forget_opened|]);
      cbn; tauto.
  - destruct (card_lookup (env_card (w_env w)) (p ++ "/index.htm"))
      as [[size|entries']|] eqn:L2; run.
    + destruct (negb (Platform.to_size_t (env_streamed (w_env w) (p ++ "/index.htm")) =? size));
        do 3 eexists; (split; [reflexivity|]); cbn; rewrite <- ?app_assoc; cbn;
        (split; [reflexivity|]); (split; [now apply forget_opened_twice|]);
        cbn; tauto.
    + destruct (negb (Platform.to_size_t (env_streamed (w_env w) (p ++ "/index.htm")) =? 0));
        do 3 eexists; (split; [reflexivity|]); cbn; rewrite <- ?app_assoc; cbn;
        (split; [reflexivity|]); (split; [now apply forget_opened_twice|]);
        cbn; tauto.
    + do 3 eexists; (split; [reflexivity|]); cbn; rewrite <- ?app_assoc; cbn.
      (split; [reflexivity|]); (split; [now apply forget_opened|]).
      cbn; tauto.
  - do 3 eexists; (split; [reflexivity|]); cbn; rewrite <- ?app_assoc; cbn.
    (split; [reflexivity|]); (split; [reflexivity|]).
    cbn; tauto.
Qed.

Lemma loadFromSdCard_closes_handles_witness :
  exists served w' evs,
    loadFromSdCard "/d" (sample_world "/d" HTTP_GET []) = Some (served, w')
    /\ w_trace w' = (w_trace (sample_world "/d" HTTP_GET []) ++ evs)%list
    /\ w_open w' = w_open (sample_world "/d" HTTP_GET [])
    /\ (forall h, In h (opened evs) -> In h (closed evs)).
Proof.
  apply (loadFromSdCard_closes_handles "/d" (sample_world "/d" HTTP_GET [])).
  constructor.
Defined.

(** The exits of [loadFromSdCard] on the sample card.  A directory without
    [index.htm]: the directory's handle is released when [dataFile] is
    overwritten, and the file is reported as not found. *)
Example loadFromSdCard_directory_without_index :
  events_of (loadFromSdCard "/d") (sample_world "/d" HTTP_GET []) =
  Some [SdOpen "/d" (Some 0%nat); SdOpen "/d/index.htm" None; FileRelease 0].
Proof. reflexivity. Qed.

(** A file: it is streamed and closed by [close()]. *)
Example loadFromSdCard_file :
  events_of (loadFromSdCard "/a.txt") (sample_world "/a.txt" HTTP_GET []) =
  Some [SdOpen "/a.txt" (Some 0%nat); StreamFile 0 "text/plain"; FileClose 0].
Proof. reflexivity. Qed.

(** Nothing at the path: nothing was opened. *)
Example loadFromSdCard_missing :
  events_of (loadFromSdCard "/none.htm") (sample_world "/none.htm" HTTP_GET []) =
  Some [SdOpen "/none.htm" None].
Proof. reflexivity. Qed.
(* ===================================================================== *)
(** ** The JSON recogniser: more fuel changes no verdict                   *)
(* ===================================================================== *)

Module JsonFacts.
Import Json.

Ltac split_scrutinee :=
  match goal with
  | |- context [match skip_ws ?x with _ => _ end] => destruct (skip_ws x)
  | |- context [match chars ?x with _ => _ end] => destruct (chars x)
  | |- context [if Nat.eqb ?a ?b then _ else _] => destruct (Nat.eqb a b)
  end.

Lemma fuel_monotone (fuel : nat) :
  (forall s fuel', final (value fuel s) -> (fuel <= fuel')%nat ->
                   value fuel' s = value fuel s)
  /\ (forall s fuel', final (members fuel s) -> (fuel <= fuel')%nat ->
                      members fuel' s = members fuel s)
  /\ (forall s fuel', final (elements fuel s) -> (fuel <= fuel')%nat ->
                      elements fuel' s = elements fuel s).
Proof.
  unfold final.
  induction fuel as [|fuel (IHv & IHm & IHe)].
  - repeat split; intros s fuel' H; now cbn in H.
  - repeat split; intros s fuel' H Hle;
      (destruct fuel' as [|fuel']; [lia|]);
      assert (Hle' : (fuel <= fuel')%nat) by lia;
      cbn [value members elements] in *.
    + repeat (split_scrutinee; try reflexivity);
        first [ now apply IHm | now apply IHe ].
    + repeat (split_scrutinee; try reflexivity).
      destruct (value fuel s1) as [r2| |] eqn:E.
      * rewrite (IHv s1 fuel') by (try rewrite E; easy). rewrite E.
        repeat (split_scrutinee; try reflexivity). now apply IHm.
      * rewrite (IHv s1 fuel') by (try rewrite E; easy). now rewrite E.
      * contradiction.
    + destruct (value fuel s) as [r| |] eqn:E.
      * rewrite (IHv s fuel') by (try rewrite E; easy). rewrite E.
        repeat (split_scrutinee; try reflexivity). now apply IHe.
      * rewrite (IHv s fuel') by (try rewrite E; easy). now rewrite E.
      * contradiction.
Qed.

Lemma text_monotone (fuel fuel' : nat) (s : string) :
  final (text fuel s) -> (fuel <= fuel')%nat -> text fuel' s = text fuel s.
Proof.
  unfold final, text. intros H Hle.
  destruct (value fuel s) as [r| |] eqn:E.
  - rewrite (proj1 (fuel_monotone fuel) s fuel') by (try rewrite E; easy).
    now rewrite E.
  - rewrite (proj1 (fuel_monotone fuel) s fuel') by (try rewrite E; easy).
    now rewrite E.
  - contradiction.
Qed.

(** A text that the recogniser rejects with some fuel is not a JSON array. *)
Lemma rejected_not_valid (fuel : nat) (s : string) :
  text fuel s = Reject -> ~ valid_array s.
Proof.
  intros R [_ [fuel' A]].
  assert (H1 : text (Nat.max fuel fuel') s = Reject).
  { rewrite <- R. apply text_monotone; [unfold final; now rewrite R | lia]. }
  assert (H2 : text (Nat.max fuel fuel') s = Rest EmptyString).
  { rewrite <- A. apply text_monotone; [unfold final; now rewrite A | lia]. }
  congruence.
Qed.

(** A text that [check_array] accepts is a JSON array. *)
Lemma check_array_valid (s : string) : check_array s = true -> valid_array s.
Proof.
  unfold check_array, valid_array. intros H.
  apply andb_prop in H as [H1 H2]. split; [exact H1|].
  exists (enough s). destruct (text (enough s) s) as [[|]| |]; easy.
Qed.

(** Strings outside ASCII: the two bytes of e with an acute accent, the three
    of the euro sign and the four of a character of plane 1 are accepted; a
    lone lead byte, an overlong form, a surrogate and a byte of a code page
    are not. *)
Example chars_utf8 :
  let bytes (l : list Z) :=
    string_of_list_ascii (map (fun z => ascii_of_nat (Z.to_nat z)) l) in
  let str (l : list Z) := bytes l ++ DQ in
  chars (str [195; 169]) = Rest EmptyString
  /\ chars (str [226; 130; 172]) = Rest EmptyString
  /\ chars (str [240; 159; 152; 128]) = Rest EmptyString
  /\ chars (str [195; 40]) = Reject
  /\ chars (str [192; 128]) = Reject
  /\ chars (str [237; 160; 128]) = Reject
  /\ chars (str [130]) = Reject
  /\ plain (bytes [47; 195; 169; 46; 116]) = true
  /\ plain (bytes [47; 130; 46; 116]) = false.
Proof. repeat split; vm_compute; reflexivity. Qed.

End JsonFacts.
(* ===================================================================== *)
(** ** [/list]: the listing                                                *)
(* ===================================================================== *)

(** The text of one entry, as the loop builds it by appending. *)
Lemma entry_output_json (cnt : Z) (impl : FileImpl) :
  entry_output cnt (Some impl) =
  (if 0 <? cnt then "," else EmptyString) ++ entry_json (f_path impl, f_isDirectory impl).
Proof.
  unfold entry_output, entry_json. cbn [File_isDirectory File_path fst snd].
  now rewrite !append_assoc.
Qed.

(** The loop on a directory with [entries] still to come. *)
Lemma printDirectory_loop_events (entries : list (string * bool)) :
  forall (fuel : nat) (cnt : Z) (dir : FileImpl) (w : World),
    handles_ok w ->
    f_pending dir = entries ->
    (List.length entries < fuel)%nat ->
    0 <= cnt -> cnt + Z.of_nat (List.length entries) <= Platform.INT_MAX ->
    printDirectory_loop fuel cnt (Some dir) w =
    Some (Some {| f_handle := f_handle dir; f_path := f_path dir;
                  f_isDirectory := f_isDirectory dir; f_size := f_size dir;
                  f_pending := [] |},
          with_open (w_open w) (w_next w + List.length entries)
            (with_trace
               (w_trace w ++ listing_events (f_handle dir) (w_next w) cnt entries
                ++ [FileOpenNext (f_handle dir) None]) w)).
Proof.
  induction entries as [|[path isdir] rest IH]; intros fuel cnt dir w Hok Hp Hf Hc Hmax;
    (destruct fuel as [|fuel]; [cbn in Hf; lia|]);
    cbn [printDirectory_loop]; unfold File_openNextFile; rewrite Hp.
  - run. unfold File_drop. run. destruct w, dir; cbn in *; subst.
    now rewrite Nat.add_0_r.
  - run. rewrite entry_output_json. cbn [f_path f_isDirectory].
    unfold File_close, File_drop. run.
    change (2 ^ 31 - 1) with Platform.INT_MAX.
    destruct (Z.leb_spec Platform.INT_MAX cnt) as [H|_];
      [cbn [List.length] in Hmax; lia|].
    rewrite forget_opened by exact Hok.
    rewrite IH; cbn [f_pending f_handle f_path f_isDirectory f_size
                     w_open w_next w_trace w_env w_request w_hasSD
                     with_open with_trace List.length] in *;
      [ | unfold handles_ok in *; cbn; eapply Forall_impl; [|exact Hok]; cbn; intros; lia
        | reflexivity | lia | lia | lia ].
    + rewrite <- !app_assoc. cbn [app listing_events].
      replace (S (w_next w) + List.length rest)%nat
        with (w_next w + S (List.length rest))%nat by lia.
      reflexivity.
Qed.

(** The whole handler on a directory. *)
Lemma printDirectory_directory (fuel : nat) (w : World) (key path : string)
    (entries : list (string * bool)) :
  handles_ok w ->
  find (fun kv => String.eqb (fst kv) "dir") (req_args (w_request w)) = Some (key, path) ->
  card_lookup (env_card (w_env w)) path = Some (NDir entries) ->
  (List.length entries < fuel)%nat ->
  Z.of_nat (List.length entries) <= Platform.INT_MAX ->
  exists w',
    printDirectory fuel w = Some (tt, w')
    /\ w_trace w' = (w_trace w ++ directory_events path (w_next w) entries)%list
    /\ w_open w' = w_open w.
Proof.
  intros Hok Hfind L Hf Hmax.
  assert (Hhas := find_existsb _ _ _ Hfind).
  unfold printDirectory, directory_events, SD_open, open_node, File_rewindDirectory.
  run. rewrite Hhas. run. rewrite Hfind. cbn.
  destruct (String.eqb_spec path "/") as [E|Hne];
    repeat (progress (rewrite ?L; cbn));
    (rewrite printDirectory_loop_events with (entries := entries);
     [ | unfold handles_ok in *; cbn; constructor;
         [lia | eapply Forall_impl; [|exact Hok]; cbn; intros; lia]
       | reflexivity | exact Hf | lia | lia ]);
    unfold File_close, File_drop; run;
    eexists; (split; [reflexivity|]); cbn;
    rewrite <- ?app_assoc; cbn; rewrite <- ?app_assoc; cbn;
    (split; [reflexivity|]);
    rewrite forget_head; apply forget_fresh;
    eapply Forall_impl; [|exact Hok| |exact Hok]; cbn; intros; lia.
Qed.






(** The listing of the root of the sample card. *)
Example printDirectory_sample :
  option_map body_text
    (events_of (printDirectory 3) (sample_world "/list" HTTP_GET [("dir", "/")]))
  = Some (listing_text [("/a.txt", false); ("/d", true)])
  /\ Json.check_array (listing_text [("/a.txt", false); ("/d", true)]) = true
  /\ Json.check_array (listing_text []) = true.
Proof. repeat split; vm_compute; reflexivity. Qed.

(* ===================================================================== *)
(** ** [/list]: when the listing is a JSON array                           *)
(* ===================================================================== *)

Section ListingJson.
Import Json.










End ListingJson.


(* ===================================================================== *)
(** ** The diagnostic page                                                 *)
(* ===================================================================== *)

(** The loop over the arguments, with [todo] still to come. *)
Lemma handleNotFound_loop_message (todo : list (string * string)) :
  forall (fuel : nat) (done : list (string * string)) (message : string) (w : World),
    req_args (w_request w) = (done ++ todo)%list ->
    (List.length (done ++ todo) < 256)%nat ->
    (List.length todo < fuel)%nat ->
    handleNotFound_loop fuel (Z.of_nat (List.length done)) message w =
    Some (fold_left (fun m kv => m ++ arg_lines kv) todo message, w).
Proof.
  induction todo as [|kv todo IH]; intros fuel done message w Hargs Hlen Hf;
    (destruct fuel as [|fuel]; [cbn in Hf; lia|]);
    cbn [handleNotFound_loop]; run; rewrite Hargs.
  - rewrite app_nil_r.
    destruct (Z.ltb_spec (Z.of_nat (List.length done)) (Z.of_nat (List.length done)));
      [lia | reflexivity].
  - rewrite length_app in *. cbn [List.length] in *.
    destruct (Z.ltb_spec (Z.of_nat (List.length done))
                (Z.of_nat (List.length done + S (List.length todo)))) as [_|H]; [|lia].
    destruct (Z.ltb_spec (Z.of_nat (List.length done)) 0) as [H|_]; [lia|].
    rewrite Hargs, Nat2Z.id, nth_error_app2, Nat.sub_diag by lia. cbn [nth_error].
    replace (Platform.to_uint8 (Z.of_nat (List.length done) + 1))
      with (Z.of_nat (List.length (done ++ [kv])))
      by (rewrite length_app; cbn [List.length];
          unfold Platform.to_uint8, Platform.wrap; rewrite Z.mod_small; lia).
    rewrite (IH fuel (done ++ [kv])%list).
    + reflexivity.
    + now rewrite <- app_assoc.
    + rewrite <- app_assoc, length_app. cbn [List.length app]. lia.
    + cbn [List.length] in Hf. lia.
Qed.

(** With 256 arguments or more the counter of the loop, a [uint8_t], never
    reaches their number: the loop has no result, whatever the fuel. *)
Lemma handleNotFound_loop_never_ends (fuel : nat) :
  forall (i : Z) (message : string) (w : World),
    (256 <= List.length (req_args (w_request w)))%nat ->
    0 <= i < 256 ->
    handleNotFound_loop fuel i message w = None.
Proof.
  induction fuel as [|fuel IH]; intros i message w Hargs Hi; [reflexivity|].
  cbn [handleNotFound_loop]. run.
  destruct (Z.ltb_spec i (Z.of_nat (List.length (req_args (w_request w))))) as [_|H];
    [|lia].
  apply IH; [exact Hargs|].
  unfold Platform.to_uint8, Platform.wrap. apply Z.mod_pos_bound. lia.
Qed.

(** The fallback, once the request has fallen through. *)
Lemma handleNotFound_fallback (fuel : nat) (w w1 : World) :
  falls_through w w1 ->
  (List.length (req_args (w_request w)) < 256)%nat ->
  (List.length (req_args (w_request w)) < fuel)%nat ->
  handleNotFound fuel w =
  Some (tt, with_trace
              (w_trace w1 ++
               [Send 404 "text/plain" (notFound_message (w_hasSD w) (w_request w));
                SerialPrint (notFound_message (w_hasSD w) (w_request w))]) w1).
Proof.
  intros Hfall Hlen Hf. unfold handleNotFound.
  assert (Hw1 : w_request w1 = w_request w /\ w_hasSD w1 = w_hasSD w).
  { destruct Hfall as [[_ ->]|[_ H]]; [auto|].
    destruct (keeps_loadFromSdCard _ _ _ _ H) as (_ & R & F & _). auto. }
  destruct Hw1 as [Hr Hs].
  assert (Hloop : forall message,
            handleNotFound_loop fuel 0 message w1 =
            Some (fold_left (fun m kv => m ++ arg_lines kv)
                            (req_args (w_request w)) message, w1)).
  { intros message.
    apply (handleNotFound_loop_message (req_args (w_request w)) fuel [] message w1);
      cbn [app List.length]; congruence. }
  destruct Hfall as [[Hsd ->]|[Hsd Hload]].
  - run. rewrite Hsd. run. rewrite Hsd. rewrite Hloop. cbn.
    rewrite <- app_assoc. reflexivity.
  - run. rewrite Hsd. run. rewrite Hload. run. rewrite Hs, Hr, Hsd.
    rewrite Hloop. cbn. rewrite <- app_assoc. reflexivity.
Qed.

(** Occurrences in a text. *)
Lemma contains_here (a p b : string) : contains (a ++ p ++ b) p.
Proof. now exists a, b. Qed.

Lemma contains_after (a s p : string) : contains s p -> contains (a ++ s) p.
Proof.
  intros (x & y & ->). exists (a ++ x), y. now rewrite append_assoc.
Qed.



Lemma prefix_append (p s : string) : String.prefix p (p ++ s) = true.
Proof.
  induction p as [|c p IH]; cbn; [now destruct s|].
  destruct (Ascii.ascii_dec c c); [exact IH | contradiction].
Qed.

Lemma contains_containsb (s p : string) : contains s p -> containsb p s = true.
Proof.
  intros (a & b & ->). induction a as [|c a IH].
  - cbn [String.append]. destruct (p ++ b) eqn:E; cbn [containsb];
      rewrite <- E, prefix_append; reflexivity.
  - cbn [String.append containsb]. rewrite IH. apply orb_true_r.
Qed.

(** The page is its head followed by the lines of the arguments. *)
Lemma fold_left_lines (l : list (string * string)) :
  forall init,
    fold_left (fun m kv => m ++ arg_lines kv) l init
    = init ++ String.concat EmptyString (map arg_lines l).
Proof.
  induction l as [|kv l IH]; intros init; cbn [fold_left map String.concat].
  - now rewrite append_empty_r.
  - rewrite IH. destruct l as [|kv' l]; cbn [map String.concat].
    + now rewrite !append_empty_r.
    + cbn [String.append]. now rewrite append_assoc.
Qed.

Lemma lines_contain (l : list (string * string)) (kv : string * string) :
  In kv l -> contains (String.concat EmptyString (map arg_lines l)) (arg_lines kv).
Proof.
  induction l as [|x l IH]; [intros []|].
  intros [->|I]; cbn [map String.concat].
  - destruct (map arg_lines l) as [|y ys].
    + exists EmptyString, EmptyString. now rewrite append_empty_r.
    + exists EmptyString. eexists. cbn [String.append]. reflexivity.
  - specialize (IH I). destruct (map arg_lines l) as [|y ys] eqn:E.
    + destruct l; [destruct I | discriminate E].
    + cbn [String.append]. now apply contains_after.
Qed.

Lemma notFound_head_shape (hasSD : bool) (uri : string) (method : HTTPMethod) (n : Z) :
  notFound_head hasSD uri method n =
  (if hasSD then EmptyString else NOT_DETECTED)
  ++ "URI: " ++ uri ++ LF ++ "Method: "
  ++ match method with HTTP_GET => "GET" | _ => "POST" end
  ++ LF ++ "Arguments: " ++ of_int n ++ LF.
Proof.
  unfold notFound_head, NOT_DETECTED.
  replace (if HTTPMethod_eqb method HTTP_GET then "GET" else "POST")
    with (match method with HTTP_GET => "GET" | _ => "POST" end)
    by (now destruct method).
  destruct hasSD; cbn [negb]; now rewrite !append_assoc.
Qed.

Lemma notFound_message_shape (hasSD : bool) (r : Request) :
  notFound_message hasSD r =
  (if hasSD then EmptyString else NOT_DETECTED)
  ++ "URI: " ++ req_uri r ++ LF ++ "Method: "
  ++ match req_method r with HTTP_GET => "GET" | _ => "POST" end
  ++ LF ++ "Arguments: " ++ of_int (Z.of_nat (List.length (req_args r))) ++ LF
  ++ String.concat EmptyString (map arg_lines (req_args r)).
Proof.
  unfold notFound_message. rewrite fold_left_lines, notFound_head_shape.
  now rewrite !append_assoc.
Qed.

(** C9, as the specification has it, fails: the page does not always name
    the method of the request.  A [PUT] for a path that is not on the card is
    answered with a page that reads [Method: POST] and has no [PUT] in it. *)
Lemma handleNotFound_put_is_not_named :
  exists body,
    events_of (handleNotFound 1) (sample_world "/x" HTTP_PUT []) =
      Some [SdOpen "/x" None; Send 404 "text/plain" body; SerialPrint body]
    /\ body = "URI: /x" ++ LF ++ "Method: POST" ++ LF ++ "Arguments: 0" ++ LF
    /\ ~ contains body (method_name HTTP_PUT).
Proof.
  eexists. split; [vm_compute; reflexivity|]. split; [vm_compute; reflexivity|].
  intros H. apply contains_containsb in H. vm_compute in H. discriminate H.
Qed.

(** C9, amended.  For every request with fewer than 256 query arguments that
    falls through to the fallback, the handler returns; the response has
    status 404 and type text/plain; its body holds the requested path, a
    method line that reads GET for a GET request and POST for a request of
    any other method, and the name and the value of every query argument; and
    the body starts with the notice that the card was not detected exactly
    when [hasSD] is false. *)
Theorem handleNotFound_diagnostic (w w1 : World) :
  falls_through w w1 ->
  (List.length (req_args (w_request w)) < 256)%nat ->
  exists body,
    handleNotFound (S (List.length (req_args (w_request w)))) w =
      Some (tt, with_trace (w_trace w1 ++ [Send 404 "text/plain" body; SerialPrint body]) w1)
    /\ contains body ("URI: " ++ req_uri (w_request w) ++ LF)
    /\ contains body (LF ++ "Method: "
                      ++ match req_method (w_request w) with
                         | HTTP_GET => "GET"
                         | _ => "POST"
                         end ++ LF)
    /\ (forall name value, In (name, value) (req_args (w_request w)) ->
          contains body (" NAME:" ++ name ++ LF ++ " VALUE:" ++ value ++ LF))
    /\ String.prefix NOT_DETECTED body = negb (w_hasSD w).
Proof.
  intros Hfall Hlen.
  exists (notFound_message (w_hasSD w) (w_request w)).
  split; [apply handleNotFound_fallback; [exact Hfall | exact Hlen | lia]|].
  rewrite notFound_message_shape.
  set (notice := if w_hasSD w then EmptyString else NOT_DETECTED).
  set (shown := match req_method (w_request w) with HTTP_GET => "GET" | _ => "POST" end).
  set (count := of_int (Z.of_nat (List.length (req_args (w_request w))))).
  set (lines := String.concat EmptyString (map arg_lines (req_args (w_request w)))).
  split; [|split; [|split]].
  - exists notice, ("Method: " ++ shown ++ LF ++ "Arguments: " ++ count ++ LF ++ lines).
    now rewrite !append_assoc.
  - exists (notice ++ "URI: " ++ req_uri (w_request w)),
           ("Arguments: " ++ count ++ LF ++ lines).
    now rewrite !append_assoc.
  - intros name value I.
    do 10 (apply contains_after).
    replace (" NAME:" ++ name ++ LF ++ " VALUE:" ++ value ++ LF)
      with (arg_lines (name, value))
      by (unfold arg_lines; cbn [fst snd]; now rewrite !append_assoc).
    now apply lines_contain.
  - subst notice. destruct (w_hasSD w); cbn [negb].
    + reflexivity.
    + apply prefix_append.
Qed.

Lemma handleNotFound_diagnostic_witness :
  exists body,
    handleNotFound 2 (sample_world "/x" HTTP_PUT [("a", "1")]) =
      Some (tt, with_trace
                  (w_trace (with_trace [SdOpen "/x" None]
                              (sample_world "/x" HTTP_PUT [("a", "1")]))
                   ++ [Send 404 "text/plain" body; SerialPrint body])
                  (with_trace [SdOpen "/x" None] (sample_world "/x" HTTP_PUT [("a", "1")])))
    /\ contains body ("URI: " ++ "/x" ++ LF)
    /\ contains body (LF ++ "Method: " ++ "POST" ++ LF)
    /\ (forall name value, In (name, value) [("a", "1")] ->
          contains body (" NAME:" ++ name ++ LF ++ " VALUE:" ++ value ++ LF))
    /\ String.prefix NOT_DETECTED body = false.
Proof.
  apply (handleNotFound_diagnostic
           (sample_world "/x" HTTP_PUT [("a", "1")])
           (with_trace [SdOpen "/x" None] (sample_world "/x" HTTP_PUT [("a", "1")]))).
  - right. split; reflexivity.
  - cbn. lia.
Defined.

(** Whatever the loop returns starts with the message it was given. *)
Lemma handleNotFound_loop_extends (fuel : nat) :
  forall (i : Z) (message message' : string) (w w' : World),
    handleNotFound_loop fuel i message w = Some (message', w') ->
    w' = w /\ exists rest, message' = message ++ rest.
Proof.
  induction fuel as [|fuel IH]; intros i message message' w w' H; [discriminate H|].
  cbn [handleNotFound_loop] in H. revert H. run.
  destruct (i <? Z.of_nat (List.length (req_args (w_request w)))).
  - intros H. apply IH in H as (-> & rest & ->). split; [reflexivity|].
    eexists. rewrite append_assoc. reflexivity.
  - intros [= <- <-]. split; [reflexivity|].
    exists EmptyString. now rewrite append_empty_r.
Qed.

(** C10.  On every request that falls through to the fallback, the method
    line of the page reads GET when the method of the request is GET and POST
    when it is any other method, a PUT or a DELETE included: whenever the
    handler returns, the body it has sent starts with the notice if the card
    was not detected, the line of the path, and that method line.  With fewer
    than 256 query arguments the handler does return. *)
Theorem handleNotFound_method_line (w w1 : World) :
  falls_through w w1 ->
  (forall fuel w',
      handleNotFound fuel w = Some (tt, w') ->
      exists rest,
        w_trace w' =
        (w_trace w1 ++
         [Send 404 "text/plain"
            ((if w_hasSD w then EmptyString else NOT_DETECTED)
             ++ "URI: " ++ req_uri (w_request w) ++ LF ++ "Method: "
             ++ match req_method (w_request w) with
                | HTTP_GET => "GET"
                | HTTP_DELETE | HTTP_HEAD | HTTP_POST | HTTP_PUT
                | HTTP_OPTIONS | HTTP_PATCH => "POST"
                end
             ++ LF ++ "Arguments: " ++ rest);
          SerialPrint
            ((if w_hasSD w then EmptyString else NOT_DETECTED)
             ++ "URI: " ++ req_uri (w_request w) ++ LF ++ "Method: "
             ++ match req_method (w_request w) with
                | HTTP_GET => "GET"
                | HTTP_DELETE | HTTP_HEAD | HTTP_POST | HTTP_PUT
                | HTTP_OPTIONS | HTTP_PATCH => "POST"
                end
             ++ LF ++ "Arguments: " ++ rest)])%list)
  /\ ((List.length (req_args (w_request w)) < 256)%nat ->
      exists w', handleNotFound (S (List.length (req_args (w_request w)))) w = Some (tt, w')).
Proof.
  intros Hfall. split.
  - intros fuel w' Hrun.
    assert (Hw1 : w_request w1 = w_request w /\ w_hasSD w1 = w_hasSD w).
    { destruct Hfall as [[_ ->]|[_ H]]; [auto|].
      destruct (keeps_loadFromSdCard _ _ _ _ H) as (_ & R & F & _). auto. }
    destruct Hw1 as [Hr Hs].
    assert (Hcont :
              bind (handleNotFound_loop fuel 0
                      (notFound_head (w_hasSD w) (req_uri (w_request w))
                         (req_method (w_request w))
                         (Z.of_nat (List.length (req_args (w_request w))))))
                   (fun message =>
                      bind (server_send 404 "text/plain" message)
                           (fun _ => Serial_print message)) w1
              = Some (tt, w')).
    { rewrite <- Hrun. unfold handleNotFound.
      destruct Hfall as [[Hsd ->]|[Hsd Hload]].
      - run. rewrite Hsd. run. rewrite ?Hsd. reflexivity.
      - run. rewrite Hsd. run. rewrite Hload. run. rewrite ?Hs, ?Hr, ?Hsd. reflexivity. }
    apply bind_inv in Hcont as (message & w2 & Hloop & Hsend).
    apply handleNotFound_loop_extends in Hloop as (-> & rest & ->).
    revert Hsend. run. intros [= <-]. cbn [w_trace with_trace].
    rewrite notFound_head_shape.
    exists (of_int (Z.of_nat (List.length (req_args (w_request w)))) ++ LF ++ rest).
    rewrite <- app_assoc. cbn [app].
    replace (match req_method (w_request w) with
             | HTTP_GET => "GET"
             | _ => "POST"
             end)
      with (match req_method (w_request w) with
            | HTTP_GET => "GET"
            | HTTP_DELETE | HTTP_HEAD | HTTP_POST | HTTP_PUT
            | HTTP_OPTIONS | HTTP_PATCH => "POST"
            end) by (now destruct (req_method (w_request w))).
    now rewrite !append_assoc.
  - intros Hlen. eexists. apply handleNotFound_fallback; [exact Hfall | exact Hlen | lia].
Qed.

Lemma handleNotFound_method_line_witness :
  (forall fuel w',
      handleNotFound fuel (sample_world "/x" HTTP_DELETE []) = Some (tt, w') ->
      exists rest,
        w_trace w' =
        ([SdOpen "/x" None] ++
         [Send 404 "text/plain"
            (EmptyString ++ "URI: " ++ "/x" ++ LF ++ "Method: " ++ "POST"
             ++ LF ++ "Arguments: " ++ rest);
          SerialPrint
            (EmptyString ++ "URI: " ++ "/x" ++ LF ++ "Method: " ++ "POST"
             ++ LF ++ "Arguments: " ++ rest)])%list)
  /\ ((0 < 256)%nat ->
      exists w', handleNotFound 1 (sample_world "/x" HTTP_DELETE []) = Some (tt, w')).
Proof.
  apply (handleNotFound_method_line
           (sample_world "/x" HTTP_DELETE [])
           (with_trace [SdOpen "/x" None] (sample_world "/x" HTTP_DELETE []))).
  right. split; reflexivity.
Defined.
(* ===================================================================== *)
(** ** The flag [hasSD]                                                    *)
(* ===================================================================== *)

Section Blind.

Context {A B : Type}.

Lemma blind_ret (a : A) : blind (ret a).
Proof. intros w b. reflexivity. Qed.

Lemma blind_no_result : blind (@no_result A).
Proof. intros w b. reflexivity. Qed.

Lemma blind_ask (f : World -> A) :
  (forall w b, f (with_hasSD b w) = f w) -> blind (ask f).
Proof. intros H w b. unfold ask. cbn. now rewrite H. Qed.

Lemma blind_bind (m : M A) (k : A -> M B) :
  blind m -> (forall a, blind (k a)) -> blind (bind m k).
Proof.
  intros Hm Hk w b. unfold bind. rewrite Hm.
  destruct (m w) as [[a w1]|]; cbn; [apply Hk | reflexivity].
Qed.

End Blind.

Lemma blind_emit (e : Event) : blind (emit e).
Proof. intros w b. reflexivity. Qed.

Lemma blind_alloc : blind alloc_handle.
Proof. intros w b. reflexivity. Qed.

Lemma blind_free (h : nat) : blind (free_handle h).
Proof. intros w b. reflexivity. Qed.

Ltac blind_step :=
  first
    [ apply blind_ret | apply blind_emit | apply blind_no_result
    | apply blind_alloc | apply blind_free
    | apply blind_ask; intros; reflexivity
    | apply blind_bind; [|intros ?]
    | match goal with
      | |- blind (if ?b then _ else _) => destruct b
      | |- blind (match ?x with _ => _ end) => destruct x
      end
    | progress unfold SD_open, SD_exists, SD_readRAW, SD_numSectors, SD_sectorSize,
        open_node, File_close, File_drop, File_assign, File_rewindDirectory,
        File_openNextFile, server_streamFile, server_uri, server_method,
        server_args, server_hasArg, server_arg, server_argName, server_arg_at,
        server_setContentLength, server_send, server_sendContent,
        server_sendContent_P, Serial_print, Serial_println, returnFail, returnOK ].

Ltac blind_all := repeat blind_step.

Lemma blind_streamRaw_loop (fuel : nat) :
  forall sectors sectorSize sector data,
    blind (streamRaw_loop fuel sectors sectorSize sector data).
Proof.
  induction fuel as [|fuel IH]; intros; cbn [streamRaw_loop]; blind_all. apply IH.
Qed.

Lemma blind_streamRaw (fuel : nat) : blind (streamRaw fuel).
Proof. unfold streamRaw. blind_all. apply blind_streamRaw_loop. Qed.

Lemma blind_printDirectory_loop (fuel : nat) :
  forall cnt dir, blind (printDirectory_loop fuel cnt dir).
Proof.
  induction fuel as [|fuel IH]; intros; cbn [printDirectory_loop]; blind_all.
  apply IH.
Qed.

Lemma blind_printDirectory (fuel : nat) : blind (printDirectory fuel).
Proof.
  unfold printDirectory. blind_all; try apply blind_printDirectory_loop.
Qed.

(** A handler that is blind to the flag does not consult it. *)
Lemma blind_not_consulted {A} (m : M A) : blind m -> ~ consults_hasSD m.
Proof.
  intros Hb [w H]. apply H. unfold events_of.
  change (with_trace [] (with_hasSD true w)) with (with_hasSD true (with_trace [] w)).
  change (with_trace [] (with_hasSD false w)) with (with_hasSD false (with_trace [] w)).
  rewrite !Hb. now destruct (m (with_trace [] w)) as [[a w']|].
Qed.

(** C6, as the specification has it, fails: the handlers of [/list] and
    [/raw] never look at the flag.  Whatever its value, they do the same. *)
Lemma hasSD_not_consulted_by_list_and_raw :
  (forall fuel, ~ consults_hasSD (printDirectory fuel))
  /\ (forall fuel, ~ consults_hasSD (streamRaw fuel)).
Proof.
  split; intros fuel; apply blind_not_consulted;
    [apply blind_printDirectory | apply blind_streamRaw].
Qed.

(** The same on the sample card, with the card announced as missing: the
    directory is listed and the sectors are streamed all the same. *)
Example list_and_raw_without_flag :
  events_of (printDirectory 3)
    (with_hasSD false (sample_world "/list" HTTP_GET [("dir", "/")]))
  = events_of (printDirectory 3) (sample_world "/list" HTTP_GET [("dir", "/")])
  /\ events_of (streamRaw 5) (with_hasSD false (sample_world "/raw" HTTP_GET []))
     = events_of (streamRaw 5) (sample_world "/raw" HTTP_GET []).
Proof. split; reflexivity. Qed.

(** The start-up and the requests. *)
Lemma keeps_wifi_wait (fuel : nat) : forall poll i, keeps (wifi_wait fuel poll i).
Proof.
  induction fuel as [|fuel IH]; intros; cbn [wifi_wait]; keeps_all. apply IH.
Qed.

Lemma setup_flag (env : Env) (fuel : nat) (w' : World) :
  setup fuel (boot_world env) = Some (tt, w') ->
  w_hasSD w' = env_sd_begin env
  /\ assignments (w_trace w') = (if env_sd_begin env then 1 else 0)%nat
  /\ exists before,
       w_trace w' =
       (before ++ ServerBegin :: SdBegin (env_sd_begin env)
               :: (if env_sd_begin env then [AssignHasSD true] else []))%list.
Proof.
  unfold setup. intros H.
  apply bind_inv in H as ([] & w0 & H0 & H).
  apply bind_inv in H as (i & w1 & H1 & H).
  assert (K0 : keeps (emit WifiBegin)) by (apply keeps_emit; exact I).
  destruct (K0 _ _ _ H0) as (E0 & _ & F0 & N0).
  destruct (keeps_wifi_wait _ _ _ _ _ _ H1) as (E1 & _ & F1 & N1).
  destruct (i =? 21); [discriminate H|].
  revert H. run. rewrite E1, E0. cbn [boot_world w_env].
  assert (Hn : assignments (w_trace w1) = 0%nat) by (rewrite N1, N0; reflexivity).
  destruct (env_sd_begin env); intros [= <-]; cbn [w_hasSD w_trace with_trace with_hasSD].
  - split; [reflexivity|]. split.
    + rewrite !assignments_snoc, Hn. reflexivity.
    + exists (w_trace w1 ++ [MdnsBegin (env_mdns_begin env); ServerOn "/list" HTTP_GET;
                             ServerOn "/raw" HTTP_GET; ServerOnNotFound])%list.
      rewrite <- !app_assoc. reflexivity.
  - split; [rewrite F1, F0; reflexivity|]. split.
    + rewrite !assignments_snoc, Hn. reflexivity.
    + exists (w_trace w1 ++ [MdnsBegin (env_mdns_begin env); ServerOn "/list" HTTP_GET;
                             ServerOn "/raw" HTTP_GET; ServerOnNotFound])%list.
      rewrite <- !app_assoc. reflexivity.
Qed.

Lemma handleClient_flag (fuel : nat) (request : Request) (w w' : World) :
  handleClient fuel request w = Some (tt, w') ->
  w_env w' = w_env w /\ w_hasSD w' = w_hasSD w
  /\ assignments (w_trace w') = assignments (w_trace w).
Proof.
  unfold handleClient. intros H.
  apply bind_inv in H as ([] & w0 & H0 & H). injection H0 as <-.
  assert (K : keeps (if String.eqb (req_uri request) "/list"
                        && HTTPMethod_eqb (req_method request) HTTP_GET
                     then printDirectory fuel
                     else if String.eqb (req_uri request) "/raw"
                             && HTTPMethod_eqb (req_method request) HTTP_GET
                     then streamRaw fuel
                     else handleNotFound fuel)).
  { destruct (_ && _); [apply keeps_printDirectory|].
    destruct (_ && _); [apply keeps_streamRaw | apply keeps_handleNotFound]. }
  destruct (K _ _ _ H) as (E & _ & F & N). auto.
Qed.

Lemma serve_flag (fuel : nat) (requests : list Request) :
  forall w w',
    serve fuel requests w = Some (tt, w') ->
    w_env w' = w_env w /\ w_hasSD w' = w_hasSD w
    /\ assignments (w_trace w') = assignments (w_trace w).
Proof.
  induction requests as [|request rest IH]; intros w w' H; cbn [serve] in H.
  - injection H as <-. auto.
  - apply bind_inv in H as ([] & w1 & H1 & H).
    apply bind_inv in H as ([] & w2 & H2 & H).
    destruct (handleClient_flag _ _ _ _ H1) as (E1 & F1 & N1).
    injection H2 as <-.
    destruct (IH _ _ H) as (E & F & N).
    cbn [w_env w_hasSD w_trace with_trace] in *.
    rewrite assignments_snoc in N. cbn in N.
    repeat split; try congruence. lia.
Qed.

Lemma handleNotFound_consults (fuel : nat) :
  (0 < fuel)%nat -> consults_hasSD (handleNotFound fuel).
Proof.
  intros Hf. exists (sample_world "/x" HTTP_GET []). unfold events_of.
  rewrite (handleNotFound_fallback fuel
             (with_trace [] (with_hasSD true (sample_world "/x" HTTP_GET [])))
             (with_trace [SdOpen "/x" None]
                (with_hasSD true (sample_world "/x" HTTP_GET []))));
    [ | right; split; reflexivity | cbn; lia | exact Hf ].
  rewrite (handleNotFound_fallback fuel
             (with_trace [] (with_hasSD false (sample_world "/x" HTTP_GET [])))
             (with_trace [] (with_hasSD false (sample_world "/x" HTTP_GET []))));
    [ | left; split; reflexivity | cbn; lia | exact Hf ].
  cbn. discriminate.
Qed.

(** C6, amended.  [hasSD] is false when the sketch starts.  [setup] assigns to
    it at most once: once, the value true, when [SD.begin] succeeds, and never
    when it fails; the assignment is the last thing [setup] does, after
    [server.begin()] and before [loop] handles the first request.  No request
    changes the flag or assigns to it.  Of the three handlers only the
    fallback consults it: the handlers of [/list] and [/raw] do the same
    whatever its value. *)
Theorem hasSD_lifetime :
  (forall env, w_hasSD (boot_world env) = false)
  /\ (forall env fuel w',
        setup fuel (boot_world env) = Some (tt, w') ->
        w_hasSD w' = env_sd_begin env
        /\ assignments (w_trace w') = (if env_sd_begin env then 1 else 0)%nat
        /\ exists before,
             w_trace w' =
             (before ++ ServerBegin :: SdBegin (env_sd_begin env)
                     :: (if env_sd_begin env then [AssignHasSD true] else []))%list)
  /\ (forall env, env_wifi_connected env 0%nat = true ->
        exists w', setup 1 (boot_world env) = Some (tt, w'))
  /\ (forall fuel requests w w',
        serve fuel requests w = Some (tt, w') ->
        w_hasSD w' = w_hasSD w
        /\ assignments (w_trace w') = assignments (w_trace w))
  /\ (forall fuel, blind (printDirectory fuel) /\ blind (streamRaw fuel))
  /\ (forall fuel, (0 < fuel)%nat -> consults_hasSD (handleNotFound fuel)).
Proof.
  split; [reflexivity|].
  split; [apply setup_flag|].
  split.
  { intros env Hc. unfold setup. run. rewrite Hc. cbn.
    destruct (env_sd_begin env); eexists; reflexivity. }
  split.
  { intros fuel requests w w' H.
    destruct (serve_flag _ _ _ _ H) as (_ & F & N). auto. }
  split.
  { intros fuel. split; [apply blind_printDirectory | apply blind_streamRaw]. }
  apply handleNotFound_consults.
Qed.

Lemma hasSD_lifetime_witness :
  setup 5 (boot_world sample_env) = Some (tt, sample_booted)
  /\ serve 5 sample_requests sample_booted = Some (tt, sample_served)
  /\ w_hasSD sample_booted = true /\ assignments (w_trace sample_booted) = 1%nat
  /\ w_hasSD sample_served = true /\ assignments (w_trace sample_served) = 1%nat.
Proof.
  destruct hasSD_lifetime as (_ & Hsetup & _ & Hserve & _).
  assert (S1 : setup 5 (boot_world sample_env) = Some (tt, sample_booted))
    by (vm_compute; reflexivity).
  assert (S2 : serve 5 sample_requests sample_booted = Some (tt, sample_served))
    by (vm_compute; reflexivity).
  destruct (Hsetup sample_env 5%nat _ S1) as (F1 & N1 & _).
  destruct (Hserve _ _ _ _ S2) as (F2 & N2).
  split; [exact S1|]. split; [exact S2|].
  split; [exact F1|]. split; [exact N1|].
  split; [now rewrite F2 | now rewrite N2].
Defined.
(* ===================================================================== *)
(** ** [/list]: the remaining exits, and the handles on all of them        *)
(* ===================================================================== *)

(** X1.  When the [dir] argument is not the root and nothing is at that path,
    the handler answers with [returnFail("BAD PATH")] after the one call of
    [SD.exists]: nothing is opened, nothing else is sent, and the world is
    otherwise as it was. *)
Theorem printDirectory_bad_path (fuel : nat) (w : World) (key path : string) :
  find (fun kv => String.eqb (fst kv) "dir") (req_args (w_request w)) = Some (key, path) ->
  path <> "/" ->
  card_lookup (env_card (w_env w)) path = None ->
  printDirectory fuel w =
  Some (tt, with_trace
              (w_trace w ++ [SdExists path; Send 500 "text/plain" ("BAD PATH" ++ CRLF)]) w).
Proof.
  intros Hfind Hne L. assert (Hhas := find_existsb _ _ _ Hfind).
  unfold printDirectory. run. rewrite Hhas. run. rewrite Hfind. cbn.
  destruct (String.eqb_spec path "/") as [E|_]; [contradiction|].
  repeat (progress (rewrite ?L; cbn)). now rewrite <- app_assoc.
Qed.

Lemma printDirectory_bad_path_witness :
  printDirectory 0 (sample_world "/list" HTTP_GET [("dir", "/nowhere")]) =
  Some (tt, with_trace
              (w_trace (sample_world "/list" HTTP_GET [("dir", "/nowhere")])
               ++ [SdExists "/nowhere"; Send 500 "text/plain" ("BAD PATH" ++ CRLF)])
              (sample_world "/list" HTTP_GET [("dir", "/nowhere")])).
Proof.
  apply (printDirectory_bad_path 0 (sample_world "/list" HTTP_GET [("dir", "/nowhere")])
           "dir" "/nowhere").
  - reflexivity.
  - discriminate.
  - reflexivity.
Defined.

(** *** Closing what was opened *)

Section Balance.

Context {A B : Type}.

Lemma untouched_ret (a : A) : untouched (ret a).
Proof. intros w a' w' [= <- <-]. auto. Qed.

Lemma untouched_no_result : untouched (@no_result A).
Proof. intros w a w' H. discriminate H. Qed.

Lemma untouched_ask (f : World -> A) : untouched (ask f).
Proof. intros w a w' [= <- <-]. auto. Qed.

Lemma untouched_bind (m : M A) (k : A -> M B) :
  untouched m -> (forall a, untouched (k a)) -> untouched (bind m k).
Proof.
  intros Hm Hk w b w2 H. apply bind_inv in H as (a & w1 & H1 & H2).
  destruct (Hm _ _ _ H1) as [O1 N1]. destruct (Hk a _ _ _ H2) as [O2 N2].
  split; congruence.
Qed.

Lemma untouched_balanced (m : M A) : untouched m -> balanced m.
Proof.
  intros Hm w a w' Hok H. destruct (Hm _ _ _ H) as [O N].
  split; [|exact O]. unfold handles_ok in *. now rewrite O, N.
Qed.

Lemma balanced_bind (m : M A) (k : A -> M B) :
  balanced m -> (forall a, balanced (k a)) -> balanced (bind m k).
Proof.
  intros Hm Hk w b w2 Hok H. apply bind_inv in H as (a & w1 & H1 & H2).
  destruct (Hm _ _ _ Hok H1) as [Ok1 O1].
  destruct (Hk a _ _ _ Ok1 H2) as [Ok2 O2].
  split; [exact Ok2 | congruence].
Qed.

End Balance.

Lemma untouched_emit (e : Event) : untouched (emit e).
Proof. intros w a w' [= <- <-]. auto. Qed.

Ltac untouched_step :=
  first
    [ apply untouched_ret | apply untouched_emit | apply untouched_ask
    | apply untouched_no_result
    | apply untouched_bind; [|intros ?]
    | match goal with
      | |- untouched (if ?b then _ else _) => destruct b
      | |- untouched (match ?x with _ => _ end) => destruct x
      end
    | progress unfold SD_exists, SD_readRAW, SD_numSectors, SD_sectorSize,
        server_uri, server_method,
        server_args, server_hasArg, server_arg, server_argName, server_arg_at,
        server_setContentLength, server_send, server_sendContent,
        server_sendContent_P, Serial_print, Serial_println, returnFail, returnOK ].

Ltac untouched_all := repeat untouched_step.

Lemma untouched_streamRaw (fuel : nat) : untouched (streamRaw fuel).
Proof.
  assert (L : forall fuel sectors sectorSize sector data,
             untouched (streamRaw_loop fuel sectors sectorSize sector data)).
  { clear fuel. induction fuel as [|fuel IH]; intros; cbn [streamRaw_loop];
      untouched_all. apply IH. }
  unfold streamRaw. untouched_all. apply L.
Qed.

Lemma untouched_handleNotFound_loop (fuel : nat) :
  forall i message, untouched (handleNotFound_loop fuel i message).
Proof.
  induction fuel as [|fuel IH]; intros; cbn [handleNotFound_loop]; untouched_all.
  apply IH.
Qed.

(** The loop of [printDirectory] closes every entry it opens and leaves the
    directory's own handle with the directory. *)
Lemma printDirectory_loop_balanced (fuel : nat) :
  forall cnt dir w dir' w',
    handles_ok w ->
    printDirectory_loop fuel cnt dir w = Some (dir', w') ->
    handles_ok w' /\ w_open w' = w_open w
    /\ option_map f_handle dir' = option_map f_handle dir.
Proof.
  induction fuel as [|fuel IH]; intros cnt dir w dir' w' Hok H; [discriminate H|].
  cbn [printDirectory_loop] in H. unfold File_openNextFile in H.
  destruct dir as [impl|].
  - destruct (f_pending impl) as [|[path isdir] rest] eqn:P.
    + revert H. unfold File_drop. run. intros [= <- <-]. auto.
    + revert H. unfold File_close, File_drop. run.
      rewrite forget_opened by exact Hok.
      destruct (Platform.INT_MAX <=? cnt); [discriminate|].
      intros H. apply IH in H.
      * cbn [w_open w_next w_trace with_open with_trace option_map f_handle] in H.
        exact H.
      * unfold handles_ok in *. cbn. eapply Forall_impl; [|exact Hok]. cbn. intros; lia.
  - revert H. unfold File_drop. run. intros [= <- <-]. auto.
Qed.

(** [printDirectory] closes what it opens, on each of its exits. *)
Lemma balanced_printDirectory (fuel : nat) : balanced (printDirectory fuel).
Proof.
  intros w [] w' Hok H. unfold printDirectory in H.
  apply bind_inv in H as (has & w0 & H0 & H). injection H0 as <- <-.
  destruct (negb _).
  { revert H. run. intros [= <-]. auto. }
  apply bind_inv in H as (path & w0 & H0 & H). injection H0 as <- <-.
  apply bind_inv in H as (missing & w1 & H1 & H).
  assert (B1 : handles_ok w1 /\ w_open w1 = w_open w /\ w_next w1 = w_next w
               /\ w_env w1 = w_env w).
  { destruct (negb (String.eqb _ "/")); revert H1; unfold SD_exists; run;
      intros [= <- <-]; auto. }
  destruct B1 as (Ok1 & O1 & N1 & E1).
  destruct missing.
  { revert H. run. intros [= <-]. auto. }
  unfold SD_open, open_node in H. revert H. run.
  destruct (card_lookup (env_card (w_env w1)) _) as [[size|entries]|]; cbn.
  - unfold File_close, File_drop. run. rewrite forget_opened by exact Ok1.
    intros [= <-]. split; [|exact O1]. unfold handles_ok in *. cbn.
    eapply Forall_impl; [|exact Ok1]. cbn. intros; lia.
  - unfold File_rewindDirectory. run.
    match goal with
    | |- match printDirectory_loop ?f ?c ?d ?w with _ => _ end = _ -> _ =>
        destruct (printDirectory_loop f c d w) as [[dir' w2]|] eqn:L; [|discriminate];
        apply printDirectory_loop_balanced in L
    end.
    + destruct L as (Ok2 & O2 & Hh).
      cbn [w_open w_next w_trace with_open with_trace option_map f_handle] in O2, Hh.
      destruct dir' as [impl'|]; [|discriminate Hh]. injection Hh as Hh.
      unfold File_close, File_drop. run. rewrite Hh, O2.
      rewrite forget_opened by exact Ok1.
      intros [= <-]. split; [|exact O1]. unfold handles_ok in *. cbn.
      rewrite O2 in Ok2. now inversion Ok2.
    + unfold handles_ok in *. cbn. constructor; [lia|].
      eapply Forall_impl; [|exact Ok1]. cbn. intros; lia.
  - unfold File_close, File_drop. run. intros [= <-]. auto.
Qed.

(** X2.  Whenever [printDirectory] returns, on any of its exits and for any
    request, the driver holds exactly the handles open that it held before:
    the directory and every entry opened for the listing have been closed. *)
Theorem printDirectory_closes_handles (fuel : nat) (w w' : World) :
  handles_ok w ->
  printDirectory fuel w = Some (tt, w') ->
  handles_ok w' /\ w_open w' = w_open w.
Proof. apply balanced_printDirectory. Qed.

Lemma printDirectory_closes_handles_witness :
  exists w',
    printDirectory 3 (sample_world "/list" HTTP_GET [("dir", "/")]) = Some (tt, w')
    /\ handles_ok w' /\ w_open w' = [].
Proof.
  eexists. split; [vm_compute; reflexivity|].
  apply (printDirectory_closes_handles 3 (sample_world "/list" HTTP_GET [("dir", "/")]));
    [constructor | vm_compute; reflexivity].
Defined.
(* ===================================================================== *)
(** ** The static-file handler: what is served, as what, and what is logged *)
(* ===================================================================== *)

Lemma starts_app (a b : list Event) : starts (a ++ b) = (starts a + starts b)%nat.
Proof. unfold starts. now rewrite filter_app, length_app. Qed.

Lemma serial_output_app (a b : list Event) :
  serial_output (a ++ b) = (serial_output a ++ serial_output b)%list.
Proof. unfold serial_output. apply flat_map_app. Qed.

Lemma chunks_app (a b : list Event) : chunks (a ++ b) = (chunks a ++ chunks b)%list.
Proof. unfold chunks. apply flat_map_app. Qed.

(** The cases of [loadFromSdCard]: a file, a directory with a file or a
    directory named [index.htm], a directory without, and nothing. *)
Ltac load_cases w path :=
  unfold loadFromSdCard, static_target;
  let p := fresh "p" in
  let dataType := fresh "dataType" in
  destruct (resolveContentType path) as [p dataType];
  unfold SD_open, open_node, File_assign, File_drop, File_close, server_streamFile;
  run;
  let L1 := fresh "L1" in
  let L2 := fresh "L2" in
  destruct (card_lookup (env_card (w_env w)) p) as [[?size|?entries]|] eqn:L1; run;
  [ | destruct (card_lookup (env_card (w_env w)) (p ++ "/index.htm"))
        as [[?size|?entries]|] eqn:L2; run | ];
  try match goal with
      | |- context [negb (?a =? ?b)] => destruct (Z.eqb_spec a b); cbn [negb]
      end.

(** X3.  [loadFromSdCard] always returns.  It reports the path as served
    exactly when there is something to serve: a file at the resolved path, or,
    when the resolved path is a directory, an [index.htm] below it.  When
    it serves it starts one response; when it does not it starts none and
    sends nothing, so that the caller can still answer. *)
Theorem loadFromSdCard_serves_iff (path : string) (w : World) :
  exists served w' evs,
    loadFromSdCard path w = Some (served, w')
    /\ w_trace w' = (w_trace w ++ evs)%list
    /\ (served = true <-> static_target (env_card (w_env w)) path <> None)
    /\ starts evs = (if served then 1 else 0)%nat
    /\ (served = false -> body_bytes evs = [] /\ serial_output evs = []).
Proof.
  load_cases w path;
    do 3 eexists; (split; [reflexivity|]); cbn [w_trace with_trace with_open];
    rewrite <- ?app_assoc; cbn [app];
    (split; [reflexivity|]);
    (split; [split; [intros; discriminate | intros N; try reflexivity; now destruct N]|]);
    (split; [reflexivity|]);
    intros E; try discriminate E; split; reflexivity.
Qed.

(** All that [loadFromSdCard] does, case by case. *)
Lemma loadFromSdCard_outcome (path : string) (w : World) :
  loadFromSdCard path w =
  let p := fst (resolveContentType path) in
  let index := p ++ "/index.htm" in
  let h := w_next w in
  let as_type (t : string) :=
    if existsb (fun kv => String.eqb (fst kv) "download") (req_args (w_request w))
    then "application/octet-stream" else t in
  let log (file : string) (size : Z) :=
    if Platform.to_size_t (env_streamed (w_env w) file) =? size then []
    else [SerialPrint ("Sent less data than expected!" ++ CRLF)] in
  match card_lookup (env_card (w_env w)) p with
  | None => Some (false, with_trace (w_trace w ++ [SdOpen p None]) w)
  | Some (NFile size) =>
      Some (true,
            with_open (forget h (h :: w_open w)) (S h)
              (with_trace
                 (w_trace w ++ [SdOpen p (Some h)]
                  ++ [StreamFile h (as_type (snd (resolveContentType path)))]
                  ++ log p size ++ [FileClose h]) w))
  | Some (NDir _) =>
      match card_lookup (env_card (w_env w)) index with
      | None =>
          Some (false,
                with_open (forget h (h :: w_open w)) (S h)
                  (with_trace
                     (w_trace w ++ [SdOpen p (Some h); SdOpen index None; FileRelease h]) w))
      | Some node =>
          Some (true,
                with_open (forget (S h) (forget h (S h :: h :: w_open w))) (S (S h))
                  (with_trace
                     (w_trace w
                      ++ [SdOpen p (Some h); SdOpen index (Some (S h)); FileRelease h]
                      ++ [StreamFile (S h) (as_type "text/html")]
                      ++ log index (match node with NFile size => size | NDir _ => 0 end)
                      ++ [FileClose (S h)]) w))
      end
  end.
Proof.
  load_cases w path; cbn [fst snd]; rewrite ?L1, ?L2; cbn [w_trace with_trace with_open];
    try match goal with
        | H : ?a = ?b |- context [?a =? ?b] => rewrite (proj2 (Z.eqb_eq a b) H)
        | H : ?a <> ?b |- context [?a =? ?b] => rewrite (proj2 (Z.eqb_neq a b) H)
        end;
    rewrite <- ?app_assoc; reflexivity.
Qed.

(** X4.  When there is something to serve, it is streamed once, as
    [application/octet-stream] when the request has a [download] argument,
    whatever the suffix of the path, and otherwise as the type of the resolved
    path, or as [text/html] when it is the [index.htm] of a directory. *)
Theorem loadFromSdCard_content_type (path : string) (w : World)
    (file : string) (size : Z) (type : string) :
  static_target (env_card (w_env w)) path = Some (file, size, type) ->
  exists w' handle before after,
    loadFromSdCard path w = Some (true, w')
    /\ w_trace w' =
       (w_trace w ++ before
        ++ StreamFile handle
             (if existsb (fun kv => String.eqb (fst kv) "download") (req_args (w_request w))
              then "application/octet-stream" else type)
        :: after)%list
    /\ In (SdOpen file (Some handle)) before
    /\ starts before = 0%nat /\ starts after = 0%nat.
Proof.
  rewrite loadFromSdCard_outcome. unfold static_target.
  destruct (resolveContentType path) as [p dataType]. cbn [fst snd].
  destruct (card_lookup (env_card (w_env w)) p) as [[size1|entries]|]; [| |discriminate].
  - intros [= <- <- <-]. eexists. exists (w_next w), [SdOpen p (Some (w_next w))].
    eexists. split; [reflexivity|]. cbn [w_trace with_trace with_open app].
    split; [reflexivity|]. split; [now left|]. split; [reflexivity|].
    destruct (_ =? _); reflexivity.
  - destruct (card_lookup (env_card (w_env w)) (p ++ "/index.htm")) as [node|];
      [|discriminate].
    intros E.
    assert (file = p ++ "/index.htm" /\ type = "text/html") as [-> ->]
      by (destruct node; injection E as <- <- <-; auto).
    eexists. exists (S (w_next w)),
      [SdOpen p (Some (w_next w)); SdOpen (p ++ "/index.htm") (Some (S (w_next w)));
       FileRelease (w_next w)].
    eexists. split; [reflexivity|]. cbn [w_trace with_trace with_open app].
    split; [reflexivity|]. split; [right; now left|]. split; [reflexivity|].
    destruct (_ =? _); reflexivity.
Qed.

Lemma loadFromSdCard_content_type_witness :
  exists w' handle before after,
    loadFromSdCard "/a.txt" (sample_world "/a.txt" HTTP_GET [("download", "1")])
      = Some (true, w')
    /\ w_trace w' =
       ([] ++ before ++ StreamFile handle "application/octet-stream" :: after)%list
    /\ In (SdOpen "/a.txt" (Some handle)) before
    /\ starts before = 0%nat /\ starts after = 0%nat.
Proof.
  apply (loadFromSdCard_content_type "/a.txt"
           (sample_world "/a.txt" HTTP_GET [("download", "1")]) "/a.txt" 3 "text/plain").
  reflexivity.
Defined.

(** X5.  A served file is reported as served and is closed whether or not the
    transport took all of it: when the number of bytes [streamFile] returns
    differs from the size of the file, in either direction, the only
    consequence is one line on the serial port. *)
Theorem loadFromSdCard_short_write (path : string) (w : World)
    (file : string) (size : Z) (type : string) :
  static_target (env_card (w_env w)) path = Some (file, size, type) ->
  exists w' evs handle,
    loadFromSdCard path w = Some (true, w')
    /\ w_trace w' = (w_trace w ++ evs ++ [FileClose handle])%list
    /\ In (SdOpen file (Some handle)) evs
    /\ serial_output evs =
       (if Platform.to_size_t (env_streamed (w_env w) file) =? size then []
        else ["Sent less data than expected!" ++ CRLF]).
Proof.
  rewrite loadFromSdCard_outcome. unfold static_target.
  destruct (resolveContentType path) as [p dataType]. cbn [fst snd].
  destruct (card_lookup (env_card (w_env w)) p) as [[size1|entries]|]; [| |discriminate].
  - intros [= <- <- <-]. eexists.
    exists ([SdOpen p (Some (w_next w))]
            ++ [StreamFile (w_next w)
                  (if existsb (fun kv => String.eqb (fst kv) "download")
                        (req_args (w_request w))
                   then "application/octet-stream" else dataType)]
            ++ (if Platform.to_size_t (env_streamed (w_env w) p) =? size1 then []
                else [SerialPrint ("Sent less data than expected!" ++ CRLF)]))%list,
           (w_next w).
    split; [reflexivity|]. cbn [w_trace with_trace with_open].
    split; [now rewrite <- !app_assoc|]. split; [now left|].
    destruct (_ =? _); reflexivity.
  - destruct (card_lookup (env_card (w_env w)) (p ++ "/index.htm")) as [node|];
      [|discriminate].
    intros E.
    assert (file = p ++ "/index.htm"
            /\ size = match node with NFile s => s | NDir _ => 0 end) as [-> ->]
      by (destruct node; injection E as <- <- <-; auto).
    eexists.
    exists ([SdOpen p (Some (w_next w)); SdOpen (p ++ "/index.htm") (Some (S (w_next w)));
             FileRelease (w_next w)]
            ++ [StreamFile (S (w_next w))
                  (if existsb (fun kv => String.eqb (fst kv) "download")
                        (req_args (w_request w))
                   then "application/octet-stream" else "text/html")]
            ++ (if Platform.to_size_t (env_streamed (w_env w) (p ++ "/index.htm"))
                   =? match node with NFile s => s | NDir _ => 0 end then []
                else [SerialPrint ("Sent less data than expected!" ++ CRLF)]))%list,
           (S (w_next w)).
    split; [reflexivity|]. cbn [w_trace with_trace with_open].
    split; [now rewrite <- !app_assoc|]. split; [right; now left|].
    destruct (_ =? _); reflexivity.
Qed.

Lemma loadFromSdCard_short_write_witness :
  exists w' evs handle,
    loadFromSdCard "/a.txt"
      (with_hasSD true (with_request {| req_uri := "/a.txt"; req_method := HTTP_GET;
                                        req_args := [] |} (boot_world slow_env)))
      = Some (true, w')
    /\ w_trace w' = ([] ++ evs ++ [FileClose handle])%list
    /\ In (SdOpen "/a.txt" (Some handle)) evs
    /\ serial_output evs = ["Sent less data than expected!" ++ CRLF].
Proof.
  apply (loadFromSdCard_short_write "/a.txt"
           (with_hasSD true (with_request {| req_uri := "/a.txt"; req_method := HTTP_GET;
                                             req_args := [] |} (boot_world slow_env)))
           "/a.txt" 3 "text/plain").
  reflexivity.
Defined.

(* ===================================================================== *)
(** ** Runs that are cut off: the same code, the same results              *)
(* ===================================================================== *)

Section Agree.

Context {A B : Type}.

Lemma agrees_ret (a : A) : agrees (retT a) (ret a).
Proof. intros w. reflexivity. Qed.

Lemma agrees_cut : agrees (@cut A) no_result.
Proof. intros w. reflexivity. Qed.

Lemma agrees_lift (m : M A) : agrees (lift m) m.
Proof. intros w. unfold lift. now destruct (m w) as [[a w']|]. Qed.

Lemma agrees_bind (t : T A) (m : M A) (kt : A -> T B) (k : A -> M B) :
  agrees t m -> (forall a, agrees (kt a) (k a)) -> agrees (bindT t kt) (bind m k).
Proof.
  intros Hm Hk w. unfold bindT, bind. rewrite <- (Hm w).
  destruct (t w) as [w' [a|]]; [apply Hk | reflexivity].
Qed.

End Agree.

Ltac agrees_step :=
  first
    [ apply agrees_ret | apply agrees_cut | apply agrees_lift
    | apply agrees_bind; [|intros ?]
    | match goal with
      | |- agrees (if ?b then _ else _) (if ?b then _ else _) => destruct b
      end ].

Ltac agrees_all := repeat agrees_step.

Lemma agrees_handleNotFound_loop (fuel : nat) :
  forall i message,
    agrees (handleNotFound_loop_T fuel i message) (handleNotFound_loop fuel i message).
Proof.
  induction fuel as [|fuel IH]; intros i message;
    cbn [handleNotFound_loop_T handleNotFound_loop]; agrees_all. apply IH.
Qed.

Lemma agrees_handleNotFound (fuel : nat) :
  agrees (handleNotFound_T fuel) (handleNotFound fuel).
Proof.
  unfold handleNotFound_T, handleNotFound. agrees_all.
  apply agrees_handleNotFound_loop.
Qed.






(* ===================================================================== *)
(** ** The fallback: served files, the missing card, too many arguments    *)
(* ===================================================================== *)

(** [loadFromSdCard] closes what it opens. *)
Lemma balanced_loadFromSdCard (path : string) : balanced (loadFromSdCard path).
Proof.
  intros w served w' Hok H. rewrite loadFromSdCard_outcome in H. cbv zeta in H.
  assert (Hnext : forall n, Forall (fun h => (h < n + w_next w)%nat) (w_open w)).
  { intros n. eapply Forall_impl; [|exact Hok]. cbn. intros; lia. }
  destruct (card_lookup _ _) as [[size|entries]|].
  - injection H as <- <-. cbn. rewrite forget_opened by exact Hok.
    split; [exact (Hnext 1%nat) | reflexivity].
  - destruct (card_lookup _ _) as [node|]; injection H as <- <-; cbn.
    + rewrite forget_opened_twice by exact Hok.
      split; [exact (Hnext 2%nat) | reflexivity].
    + rewrite forget_opened by exact Hok.
      split; [exact (Hnext 1%nat) | reflexivity].
  - injection H as <- <-. cbn. auto.
Qed.

(** X6.  When the card was detected and there is something to serve at the
    requested path, the fallback serves it and does nothing more, for every
    amount of fuel and every number of query arguments: one response is
    started, it is the streamed file, and no diagnostic page follows. *)
Theorem handleNotFound_serves (fuel : nat) (w : World) :
  w_hasSD w = true ->
  static_target (env_card (w_env w)) (req_uri (w_request w)) <> None ->
  exists w' evs,
    handleNotFound fuel w = Some (tt, w')
    /\ loadFromSdCard (req_uri (w_request w)) w = Some (true, w')
    /\ w_trace w' = (w_trace w ++ evs)%list
    /\ starts evs = 1%nat
    /\ (forall content_type content, ~ In (Send 404 content_type content) evs).
Proof.
  intros Hsd Ht. unfold handleNotFound. run. rewrite Hsd. run.
  rewrite loadFromSdCard_outcome. unfold static_target in Ht.
  destruct (resolveContentType (req_uri (w_request w))) as [p dataType].
  cbn [fst snd]. cbv zeta.
  destruct (card_lookup (env_card (w_env w)) p) as [[size|entries]|];
    [ | destruct (card_lookup (env_card (w_env w)) (p ++ "/index.htm")) as [node|] | ];
    try (now destruct Ht);
    do 2 eexists; (split; [reflexivity|]); (split; [reflexivity|]);
    cbn [w_trace with_trace with_open]; (split; [reflexivity|]);
    destruct (_ =? _); (split; [reflexivity|]);
    intros content_type content I; cbn in I;
    repeat (destruct I as [I|I]; [discriminate I|]); exact I.
Qed.

Lemma handleNotFound_serves_witness :
  exists w' evs,
    handleNotFound 0 (sample_world "/a.txt" HTTP_POST many_args) = Some (tt, w')
    /\ loadFromSdCard "/a.txt" (sample_world "/a.txt" HTTP_POST many_args) = Some (true, w')
    /\ w_trace w' = ([] ++ evs)%list
    /\ starts evs = 1%nat
    /\ (forall content_type content, ~ In (Send 404 content_type content) evs).
Proof.
  apply (handleNotFound_serves 0 (sample_world "/a.txt" HTTP_POST many_args)).
  - reflexivity.
  - intros H. vm_compute in H. discriminate H.
Defined.

(** With 256 arguments or more the loop over them is always at its head:
    cut off after any number of passes, it has not returned and the world is
    the one it started in. *)
Lemma handleNotFound_loop_T_spins (fuel : nat) :
  forall (i : Z) (message : string) (w : World),
    (256 <= List.length (req_args (w_request w)))%nat ->
    0 <= i < 256 ->
    handleNotFound_loop_T fuel i message w = (w, None).
Proof.
  induction fuel as [|fuel IH]; intros i message w Hargs Hi; [reflexivity|].
  cbn [handleNotFound_loop_T]. unfold bindT, lift. run.
  destruct (Z.ltb_spec i (Z.of_nat (List.length (req_args (w_request w))))) as [_|H];
    [|lia].
  apply IH; [exact Hargs|].
  unfold Platform.to_uint8, Platform.wrap. apply Z.mod_pos_bound. lia.
Qed.

(** A request that falls through has started no response and logged nothing
    by the time it does. *)
Lemma falls_through_quiet (w w1 : World) :
  falls_through w w1 ->
  w_request w1 = w_request w
  /\ exists evs,
       w_trace w1 = (w_trace w ++ evs)%list
       /\ starts evs = 0%nat /\ serial_output evs = [].
Proof.
  intros [[_ ->]|[_ H]].
  - split; [reflexivity|]. exists []. now rewrite app_nil_r.
  - split; [now destruct (keeps_loadFromSdCard _ _ _ _ H) as (_ & R & _)|].
    rewrite loadFromSdCard_outcome in H. cbv zeta in H.
    destruct (card_lookup (env_card (w_env w))
                (fst (resolveContentType (req_uri (w_request w)))))
      as [[size|children]|];
      [discriminate H | |].
    + destruct (card_lookup (env_card (w_env w))
                  (fst (resolveContentType (req_uri (w_request w))) ++ "/index.htm"))
        as [node|]; [discriminate H|].
      injection H as <-. eexists. split; [reflexivity|]. split; reflexivity.
    + injection H as <-. eexists. split; [reflexivity|]. split; reflexivity.
Qed.

(** X7.  A request with 256 query arguments or more that falls through to
    the diagnostic page is never answered.  The counter of the loop over the
    arguments is a [uint8_t], which wraps before it reaches their number: the
    handler has no result, and cut off after any number of passes of the loop
    it stands in the world in which the request fell through, where no
    response has been started and nothing has been written to the serial
    port.  Neither the 404 nor its serial copy is produced.  The run that
    can be cut off is the handler: dropped of the world of a cut-off run, it
    gives the handler's result in every world. *)
Theorem handleNotFound_too_many_args (w w1 : World) :
  falls_through w w1 ->
  (256 <= List.length (req_args (w_request w)))%nat ->
  forall fuel,
    handleNotFound fuel w = None
    /\ handleNotFound_T fuel w = (w1, None)
    /\ (exists evs,
          w_trace w1 = (w_trace w ++ evs)%list
          /\ starts evs = 0%nat /\ serial_output evs = [])
    /\ (forall v, result_of (handleNotFound_T fuel v) = handleNotFound fuel v).
Proof.
  intros Hfall Hlen fuel.
  destruct (falls_through_quiet w w1 Hfall) as [Hr Hquiet].
  assert (HT : handleNotFound_T fuel w = (w1, None)).
  { assert (Hloop : forall message, handleNotFound_loop_T fuel 0 message w1 = (w1, None)).
    { intros message. apply handleNotFound_loop_T_spins; [now rewrite Hr | lia]. }
    unfold handleNotFound_T.
    destruct Hfall as [[Hsd ->]|[Hsd Hload]].
    - unfold bindT, lift. run. rewrite Hsd. run. now rewrite Hloop.
    - unfold bindT, lift. run. rewrite Hsd. run. rewrite Hload. run. now rewrite Hloop. }
  split; [|split; [exact HT | split; [exact Hquiet | apply agrees_handleNotFound]]].
  rewrite <- (agrees_handleNotFound fuel w), HT. reflexivity.
Qed.

Lemma handleNotFound_too_many_args_witness :
  handleNotFound 1000 (sample_world "/x" HTTP_GET many_args) = None
  /\ handleNotFound_T 1000 (sample_world "/x" HTTP_GET many_args) =
     (with_trace [SdOpen "/x" None] (sample_world "/x" HTTP_GET many_args), None)
  /\ (exists evs,
        [SdOpen "/x" None] = ([] ++ evs)%list
        /\ starts evs = 0%nat /\ serial_output evs = [])
  /\ (forall v, result_of (handleNotFound_T 1000 v) = handleNotFound 1000 v).
Proof.
  apply (handleNotFound_too_many_args
           (sample_world "/x" HTTP_GET many_args)
           (with_trace [SdOpen "/x" None] (sample_world "/x" HTTP_GET many_args))).
  - right. split; reflexivity.
  - change (256 <= List.length many_args)%nat. unfold many_args.
    rewrite repeat_length. apply le_n.
Defined.

(** X8.  The diagnostic page, to the letter: the notice when the card was not
    detected, the line of the path, the method line, the line with the number
    of query arguments in decimal, and then for each argument, in the order of
    the request, one line with its name and one with its value.  The same text
    is written to the serial port after it is sent. *)
Theorem handleNotFound_page (w w1 : World) :
  falls_through w w1 ->
  (List.length (req_args (w_request w)) < 256)%nat ->
  exists page,
    handleNotFound (S (List.length (req_args (w_request w)))) w =
      Some (tt, with_trace (w_trace w1 ++ [Send 404 "text/plain" page; SerialPrint page]) w1)
    /\ page =
       (if w_hasSD w then EmptyString else "SDCARD Not Detected" ++ LF ++ LF)
       ++ "URI: " ++ req_uri (w_request w) ++ LF
       ++ "Method: "
       ++ match req_method (w_request w) with HTTP_GET => "GET" | _ => "POST" end ++ LF
       ++ "Arguments: " ++ of_int (Z.of_nat (List.length (req_args (w_request w)))) ++ LF
       ++ String.concat EmptyString
            (map (fun kv => " NAME:" ++ fst kv ++ LF ++ " VALUE:" ++ snd kv ++ LF)
                 (req_args (w_request w))).
Proof.
  intros Hfall Hlen. eexists. split.
  - apply handleNotFound_fallback; [exact Hfall | exact Hlen | lia].
  - rewrite notFound_message_shape. unfold NOT_DETECTED.
    do 11 f_equal.
    apply map_ext. intros kv. unfold arg_lines. now rewrite <- !append_assoc.
Qed.

Lemma handleNotFound_page_witness :
  exists page,
    handleNotFound 3 (with_hasSD false (sample_world "/a.txt" HTTP_PUT [("a", "1"); ("b", "2")]))
    = Some (tt, with_trace
                  ([] ++ [Send 404 "text/plain" page; SerialPrint page])
                  (with_hasSD false (sample_world "/a.txt" HTTP_PUT [("a", "1"); ("b", "2")])))
    /\ page =
       ("SDCARD Not Detected" ++ LF ++ LF)
       ++ "URI: " ++ "/a.txt" ++ LF
       ++ "Method: " ++ "POST" ++ LF
       ++ "Arguments: " ++ "2" ++ LF
       ++ String.concat EmptyString
            (map (fun kv => " NAME:" ++ fst kv ++ LF ++ " VALUE:" ++ snd kv ++ LF)
                 [("a", "1"); ("b", "2")]).
Proof.
  apply (handleNotFound_page
           (with_hasSD false (sample_world "/a.txt" HTTP_PUT [("a", "1"); ("b", "2")]))
           (with_hasSD false (sample_world "/a.txt" HTTP_PUT [("a", "1"); ("b", "2")]))).
  - left. split; reflexivity.
  - cbn. lia.
Defined.

(* ===================================================================== *)
(** ** [setup]: the wait for the network (lines 234-245)                   *)
(* ===================================================================== *)

Lemma wifi_wait_connects (d : nat) :
  forall (poll fuel : nat) (w : World),
    (d < fuel)%nat ->
    (poll + d <= 20)%nat ->
    env_wifi_connected (w_env w) (poll + d) = true ->
    (forall j, (poll <= j < poll + d)%nat -> env_wifi_connected (w_env w) j = false) ->
    wifi_wait fuel poll (Z.of_nat poll) w =
    Some (Z.of_nat (poll + d), with_trace (w_trace w ++ repeat (Delay 500) d) w).
Proof.
  induction d as [|d IH]; intros poll fuel w Hfuel Hle Hup Hdown;
    (destruct fuel as [|fuel]; [lia|]); cbn [wifi_wait]; run.
  - rewrite Nat.add_0_r in *. rewrite Hup. cbn.
    now rewrite app_nil_r, with_trace_id.
  - rewrite (Hdown poll) by lia. cbn.
    destruct (Z.ltb_spec (Z.of_nat poll) 20) as [_|H]; [|lia].
    replace (Platform.to_uint8 (Z.of_nat poll + 1)) with (Z.of_nat (S poll)).
    2:{ unfold Platform.to_uint8, Platform.wrap. rewrite Z.mod_small; lia. }
    rewrite (IH (S poll) fuel); cbn [w_env w_trace with_trace Nat.add].
    + replace (S (poll + d)) with (poll + S d)%nat by lia.
      rewrite <- app_assoc. reflexivity.
    + lia.
    + lia.
    + now replace (S (poll + d)) with (poll + S d)%nat by lia.
    + intros j Hj. apply Hdown. lia.
Qed.


(** X9.  When the network comes up at the k-th status poll, k at most 20,
    [setup] returns: it has waited k times 500 ms, then started mDNS,
    registered the two routes and the fallback, started the server and only
    then initialised the card; the flag is the result of [SD.begin].  The
    server is started whether or not the card and mDNS come up. *)
Theorem setup_connects (env : Env) (k fuel : nat) :
  connects_at env k ->
  (k <= 20)%nat ->
  (k < fuel)%nat ->
  setup fuel (boot_world env) =
  Some (tt, with_hasSD (env_sd_begin env)
              (with_trace (setup_events env k) (boot_world env))).
Proof.
  intros [Hup Hdown] Hk Hfuel. unfold setup. run.
  pose (w0 := with_trace [WifiBegin] (boot_world env)).
  change (match wifi_wait fuel 0 (Z.of_nat 0) w0 with
          | Some (a, w') =>
              (if a =? 21 then no_result
               else
                 mdns <- ask (fun w => env_mdns_begin (w_env w)) ;;
                 emit (MdnsBegin mdns) ;;
                 emit (ServerOn "/list" HTTP_GET) ;;
                 emit (ServerOn "/raw" HTTP_GET) ;;
                 emit ServerOnNotFound ;;
                 emit ServerBegin ;;
                 sd <- ask (fun w => env_sd_begin (w_env w)) ;;
                 emit (SdBegin sd) ;;
                 if sd then
                   (fun w => Some (tt, with_hasSD true w)) ;;
                   emit (AssignHasSD true)
                 else ret tt) w'
          | None => None
          end = Some (tt, with_hasSD (env_sd_begin env)
                            (with_trace (setup_events env k) (boot_world env)))).
  rewrite (wifi_wait_connects k 0 fuel w0 Hfuel); cbn [Nat.add]; try assumption.
  2:{ intros j Hj. apply Hdown. lia. }
  destruct (Z.eqb_spec (Z.of_nat k) 21) as [H|_]; [lia|].
  run. unfold setup_events.
  destruct (env_sd_begin env); cbn; unfold with_hasSD, with_trace; cbn;
    repeat rewrite <- app_assoc; reflexivity.
Qed.

Lemma setup_connects_witness :
  setup 4 (boot_world slow_env) =
  Some (tt, with_hasSD (env_sd_begin slow_env)
              (with_trace (setup_events slow_env 3) (boot_world slow_env))).
Proof.
  apply (setup_connects slow_env 3 4).
  - split; [reflexivity|].
    intros j Hj. destruct j as [|[|[|j]]]; [reflexivity..|lia].
  - lia.
  - lia.
Defined.




(* ===================================================================== *)
(** ** [/raw]: the declared length and the error log                       *)
(* ===================================================================== *)

(** X13.  The content length that [/raw] declares is the number of bytes it
    sends exactly when the size of the card, sectors times bytes per sector,
    is below 2^32: the product is stored in a [size_t] of 32 bits. *)
Theorem streamRaw_length_right_iff (w : World) :
  card_ok (env_card (w_env w)) ->
  exists evs,
    events_of (streamRaw (S (Z.to_nat (card_numSectors (env_card (w_env w)))))) w = Some evs
    /\ (declared_length evs = Some (Z.of_nat (List.length (body_bytes evs)))
        <-> card_numSectors (env_card (w_env w)) * card_sectorSize (env_card (w_env w))
            < 2 ^ 32).
Proof.
  intros Hc. destruct (streamRaw_lengths w Hc) as (evs & He & Hd & Hb).
  exists evs. split; [exact He|]. rewrite Hd, Hb.
  destruct Hc as (Hs & Hz & _).
  assert (0 <= card_numSectors (env_card (w_env w)) * card_sectorSize (env_card (w_env w)))
    by nia.
  split.
  - intros [= E]. apply Z.mod_small_iff in E; lia.
  - intros Hlt. f_equal. apply Z.mod_small. lia.
Qed.

Lemma streamRaw_length_right_iff_witness :
  exists evs,
    events_of (streamRaw 5) (sample_world "/raw" HTTP_GET []) = Some evs
    /\ (declared_length evs = Some (Z.of_nat (List.length (body_bytes evs)))
        <-> 4 * 2 < 2 ^ 32).
Proof.
  apply (streamRaw_length_right_iff (sample_world "/raw" HTTP_GET [])).
  exact sample_card_ok.
Defined.

Lemma serial_output_sectors (c : Card) (l : list Z) :
  serial_output (flat_map (sector_events c) l) =
  flat_map error_lines
    (filter (fun i => match card_sector c i with None => true | Some _ => false end) l).
Proof.
  induction l as [|i l IH]; [reflexivity|].
  cbn [flat_map filter]. rewrite serial_output_app, IH.
  unfold sector_events. destruct (card_sector c i); reflexivity.
Qed.

(** X14.  What [/raw] writes to the serial port: the line with the geometry
    of the card, then for every sector that could not be read, in ascending
    order and once each, the text [Error reading sector] and the number of the
    sector.  Nothing is logged for a sector that was read. *)
Theorem streamRaw_error_log (w : World) :
  card_ok (env_card (w_env w)) ->
  exists evs,
    events_of (streamRaw (S (Z.to_nat (card_numSectors (env_card (w_env w)))))) w = Some evs
    /\ serial_output evs =
       ([of_int (card_numSectors (env_card (w_env w))); " sectors, ";
         of_int (card_sectorSize (env_card (w_env w))); " bytes per sector, ";
         of_int (Platform.to_size_t
                   (Platform.to_uint64
                      (card_numSectors (env_card (w_env w))
                       * card_sectorSize (env_card (w_env w)))));
         (" bytes." ++ CRLF)%string]
        ++ flat_map error_lines (failed_sectors (env_card (w_env w))))%list.
Proof.
  intros Hc. set (c := env_card (w_env w)) in *.
  eexists. split; [apply (streamRaw_events_of c Hc); [reflexivity | lia]|].
  rewrite serial_output_app, serial_output_sectors. reflexivity.
Qed.

Lemma streamRaw_error_log_witness :
  exists evs,
    events_of (streamRaw 5) (sample_world "/raw" HTTP_GET []) = Some evs
    /\ serial_output evs =
       (["4"; " sectors, "; "2"; " bytes per sector, "; "8"; (" bytes." ++ CRLF)%string]
        ++ ["Error reading sector "; ("2" ++ CRLF)%string])%list.
Proof.
  apply (streamRaw_error_log (sample_world "/raw" HTTP_GET [])).
  exact sample_card_ok.
Defined.

(* ===================================================================== *)
(** ** [/list]: the status on every request                                *)
(* ===================================================================== *)

Lemma find_none_existsb {A} (f : A -> bool) (l : list A) :
  find f l = None -> existsb f l = false.
Proof.
  induction l as [|x l IH]; [reflexivity|]. cbn.
  destruct (f x); [discriminate | exact IH].
Qed.

Lemma status_directory_events (path : string) (h : nat) (entries : list (string * bool)) :
  status_code (directory_events path h entries) = Some 200
  /\ declared_length (directory_events path h entries) = Some CONTENT_LENGTH_UNKNOWN.
Proof.
  unfold directory_events. destruct (String.eqb path "/"); split; reflexivity.
Qed.

(** X15.  The handler of [/list] answers every request: with status 200 and
    an undeclared content length when the [dir] argument names a directory of
    the card, and in every other case with status 500, no content length and
    no chunk after the response. *)
Theorem printDirectory_status (fuel : nat) (w : World) :
  handles_ok w ->
  (forall entries, list_target w = Some entries ->
     (List.length entries < fuel)%nat
     /\ Z.of_nat (List.length entries) <= Platform.INT_MAX) ->
  exists w' evs,
    printDirectory fuel w = Some (tt, w')
    /\ w_trace w' = (w_trace w ++ evs)%list
    /\ status_code evs = Some (match list_target w with Some _ => 200 | None => 500 end)
    /\ declared_length evs =
       match list_target w with Some _ => Some CONTENT_LENGTH_UNKNOWN | None => None end
    /\ (list_target w = None -> chunks evs = []).
Proof.
  intros Hok Hfuel. unfold list_target in *.
  destruct (find (fun kv => String.eqb (fst kv) "dir") (req_args (w_request w)))
    as [[key path]|] eqn:Hfind.
  - assert (Hhas := find_existsb _ _ _ Hfind).
    destruct (card_lookup (env_card (w_env w)) path) as [[size|entries]|] eqn:L.
    + exists (with_open (forget (w_next w) (w_next w :: w_open w)) (S (w_next w))
                (with_trace
                   (w_trace w
                    ++ not_dir_events path (Some (NFile size)) (w_next w)) w)),
             (not_dir_events path (Some (NFile size)) (w_next w)).
      split; [|split; [reflexivity|]].
      * unfold printDirectory, not_dir_events, SD_open, open_node, File_close, File_drop.
        run. rewrite Hhas. run. rewrite Hfind. cbn.
        destruct (String.eqb path "/");
          repeat (progress (rewrite ?L; cbn)); rewrite <- ?app_assoc; reflexivity.
      * unfold not_dir_events. destruct (String.eqb path "/"); repeat split; reflexivity.
    + destruct (Hfuel entries eq_refl) as [Hf Hmax].
      destruct (printDirectory_directory fuel w key path entries Hok Hfind L Hf Hmax)
        as (w' & Hrun & Ht & _).
      exists w', (directory_events path (w_next w) entries).
      split; [exact Hrun|]. split; [exact Ht|].
      destruct (status_directory_events path (w_next w) entries) as [S1 S2].
      split; [exact S1|]. split; [exact S2|]. discriminate.
    + destruct (String.eqb_spec path "/") as [E|Hne].
      * exists (with_trace (w_trace w ++ not_dir_events path None (w_next w)) w),
               (not_dir_events path None (w_next w)).
        split; [|split; [reflexivity|]].
        -- unfold printDirectory, not_dir_events, SD_open, File_close, File_drop.
           run. rewrite Hhas. run. rewrite Hfind. cbn.
           destruct (String.eqb_spec path "/") as [_|N]; [|contradiction].
           repeat (progress (rewrite ?L; cbn)); rewrite <- ?app_assoc; reflexivity.
        -- unfold not_dir_events.
           destruct (String.eqb path "/"); repeat split; reflexivity.
      * exists (with_trace
                  (w_trace w
                   ++ [SdExists path; Send 500 "text/plain" ("BAD PATH" ++ CRLF)]) w),
               [SdExists path; Send 500 "text/plain" ("BAD PATH" ++ CRLF)].
        split; [|repeat split; reflexivity].
        unfold printDirectory. run. rewrite Hhas. run. rewrite Hfind. cbn.
        destruct (String.eqb_spec path "/") as [E|_]; [contradiction|].
        repeat (progress (rewrite ?L; cbn)). now rewrite <- app_assoc.
  - exists (with_trace (w_trace w ++ [Send 500 "text/plain" ("BAD ARGS" ++ CRLF)]) w),
           [Send 500 "text/plain" ("BAD ARGS" ++ CRLF)].
    split; [|repeat split; reflexivity].
    unfold printDirectory. run. now rewrite (find_none_existsb _ _ Hfind).
Qed.

Lemma printDirectory_status_witness :
  exists w' evs,
    printDirectory 3 (sample_world "/list" HTTP_GET [("dir", "/")]) = Some (tt, w')
    /\ w_trace w' = ([] ++ evs)%list
    /\ status_code evs = Some 200
    /\ declared_length evs = Some CONTENT_LENGTH_UNKNOWN
    /\ (list_target (sample_world "/list" HTTP_GET [("dir", "/")]) = None ->
        chunks evs = []).
Proof.
  apply (printDirectory_status 3 (sample_world "/list" HTTP_GET [("dir", "/")])).
  - apply Forall_nil.
  - intros entries E. vm_compute in E. injection E as <-.
    split; [cbn; lia | vm_compute; discriminate].
Defined.

(* ===================================================================== *)
(** ** The whole run: handles and responses                                *)
(* ===================================================================== *)

Section Starting.

Context {A B : Type}.

Lemma starting_ret (a : A) : starting 0 (ret a).
Proof. intros w x w' H. inversion H. lia. Qed.

Lemma starting_no_result (n : nat) : starting n (@no_result A).
Proof. intros w x w' H. discriminate H. Qed.

Lemma starting_ask (f : World -> A) : starting 0 (ask f).
Proof. intros w x w' H. inversion H. lia. Qed.

Lemma starting_bind (a b : nat) (m : M A) (k : A -> M B) :
  starting a m -> (forall x, starting b (k x)) -> starting (a + b) (bind m k).
Proof.
  intros Hm Hk w y w' H. apply bind_inv in H as (x & w1 & H1 & H2).
  apply Hm in H1. apply Hk in H2. lia.
Qed.

Lemma starting_bind_by (f : A -> nat) (n : nat) (m : M A) (k : A -> M B) :
  starting_by f m ->
  (forall x, exists b, starting b (k x) /\ (f x + b = n)%nat) ->
  starting n (bind m k).
Proof.
  intros Hm Hk w y w' H. apply bind_inv in H as (x & w1 & H1 & H2).
  apply Hm in H1. destruct (Hk x) as (b & Hb & E). apply Hb in H2. lia.
Qed.

End Starting.

Lemma starting_emit (e : Event) : starting (starts [e]) (emit e).
Proof.
  intros w x w' H. inversion H. cbn [w_trace with_trace]. apply starts_app.
Qed.

Lemma quiet_emit (e : Event) : starts [e] = 0%nat -> starting 0 (emit e).
Proof. intros H. rewrite <- H. apply starting_emit. Qed.

Lemma starting_alloc : starting 0 alloc_handle.
Proof. intros w x w' H. inversion H. cbn [w_trace with_open with_request with_hasSD]. lia. Qed.

Lemma starting_free (h : nat) : starting 0 (free_handle h).
Proof. intros w x w' H. inversion H. cbn [w_trace with_open with_request with_hasSD]. lia. Qed.

Lemma starting_with_request (r : Request) :
  starting 0 (fun w => Some (tt, with_request r w)).
Proof. intros w x w' H. inversion H. cbn [w_trace with_open with_request with_hasSD]. lia. Qed.

Lemma starting_with_hasSD (b : bool) :
  starting 0 (fun w => Some (tt, with_hasSD b w)).
Proof. intros w x w' H. inversion H. cbn [w_trace with_open with_request with_hasSD]. lia. Qed.

Ltac quiet_step :=
  first
    [ apply starting_ret | apply quiet_emit; reflexivity
    | apply starting_no_result
    | apply starting_alloc | apply starting_free | apply starting_ask
    | apply starting_with_request | apply starting_with_hasSD
    | apply (starting_bind 0 0); [|intros ?]
    | match goal with
      | |- starting 0 (if ?b then _ else _) => destruct b
      | |- starting 0 (match ?x with _ => _ end) => destruct x
      end
    | progress unfold SD_open, SD_exists, SD_readRAW, SD_numSectors, SD_sectorSize,
        open_node, File_close, File_drop, File_assign, File_rewindDirectory,
        File_openNextFile, server_uri, server_method,
        server_args, server_hasArg, server_arg, server_argName, server_arg_at,
        server_setContentLength, server_sendContent,
        server_sendContent_P, Serial_print, Serial_println ].

Ltac quiet_all := repeat quiet_step.

Lemma quiet_streamRaw_loop (fuel : nat) :
  forall sectors sectorSize sector data,
    starting 0 (streamRaw_loop fuel sectors sectorSize sector data).
Proof.
  induction fuel as [|fuel IH]; intros; cbn [streamRaw_loop]; quiet_all. apply IH.
Qed.

Lemma quiet_printDirectory_loop (fuel : nat) :
  forall cnt dir, starting 0 (printDirectory_loop fuel cnt dir).
Proof.
  induction fuel as [|fuel IH]; intros; cbn [printDirectory_loop]; quiet_all.
  apply IH.
Qed.

Lemma quiet_handleNotFound_loop (fuel : nat) :
  forall i message, starting 0 (handleNotFound_loop fuel i message).
Proof.
  induction fuel as [|fuel IH]; intros; cbn [handleNotFound_loop]; quiet_all.
  apply IH.
Qed.

Lemma quiet_wifi_wait (fuel : nat) : forall poll i, starting 0 (wifi_wait fuel poll i).
Proof.
  induction fuel as [|fuel IH]; intros; cbn [wifi_wait]; quiet_all. apply IH.
Qed.

Lemma starting_send (code : Z) (content_type content : string) :
  starting 1 (server_send code content_type content).
Proof. apply (starting_emit (Send code content_type content)). Qed.

(** A response is started by what comes first, or by what follows. *)
Ltac start_step :=
  first
    [ apply starting_send | apply starting_no_result
    | progress unfold returnFail, returnOK
    | apply (starting_bind 1 0); [apply starting_send | intros ?; solve [quiet_all]]
    | apply (starting_bind 0 1); [solve [quiet_all] | intros ?]
    | match goal with
      | |- starting 1 (if ?b then _ else _) => destruct b
      | |- starting 1 (match ?x with _ => _ end) => destruct x
      end ].

Ltac start_all := repeat start_step.

Lemma starting_streamRaw (fuel : nat) : starting 1 (streamRaw fuel).
Proof.
  unfold streamRaw. start_all.
  apply (starting_bind 1 0); [apply starting_send | intros ?].
  apply quiet_streamRaw_loop.
Qed.

Lemma starting_printDirectory (fuel : nat) : starting 1 (printDirectory fuel).
Proof.
  unfold printDirectory. start_all.
  all: apply (starting_bind 1 0); [apply starting_send | intros ?].
  all: quiet_all; apply quiet_printDirectory_loop.
Qed.

Lemma starting_loadFromSdCard (path : string) :
  starting_by (fun served : bool => if served then 1%nat else 0%nat) (loadFromSdCard path).
Proof.
  intros w served w' H. rewrite loadFromSdCard_outcome in H. cbv zeta in H.
  destruct (card_lookup (env_card (w_env w)) (fst (resolveContentType path)))
    as [[size|children]|];
    [| destruct (card_lookup (env_card (w_env w))
                   (fst (resolveContentType path) ++ "/index.htm")) as [node|] |];
    inversion H; subst; cbn [w_trace with_trace with_open];
    rewrite ?starts_app; cbn;
    repeat match goal with
           | |- context [if ?c then [] else _] => destruct c
           end; cbn; lia.
Qed.

Lemma starting_handleNotFound (fuel : nat) : starting 1 (handleNotFound fuel).
Proof.
  unfold handleNotFound.
  apply (starting_bind 0 1); [apply starting_ask | intros hasSD].
  apply (starting_bind_by (fun served : bool => if served then 1%nat else 0%nat)).
  - destruct hasSD.
    + intros w served w' H. apply bind_inv in H as (uri & w1 & H1 & H2).
      inversion H1; subst. now apply starting_loadFromSdCard in H2.
    + intros w served w' H. inversion H. lia.
  - intros [|].
    + exists 0%nat. split; [apply starting_ret | reflexivity].
    + exists 1%nat. split; [|reflexivity]. start_all.
      apply (starting_bind 0 1); [apply quiet_handleNotFound_loop | intros message].
      apply (starting_bind 1 0); [apply starting_send | intros ?]. quiet_all.
Qed.

Lemma starting_handleClient (fuel : nat) (request : Request) :
  starting 1 (handleClient fuel request).
Proof.
  unfold handleClient.
  apply (starting_bind 0 1); [apply starting_with_request | intros _].
  destruct (_ && _); [apply starting_printDirectory|].
  destruct (_ && _); [apply starting_streamRaw | apply starting_handleNotFound].
Qed.

Lemma starting_serve (fuel : nat) (requests : list Request) :
  starting (List.length requests) (serve fuel requests).
Proof.
  induction requests as [|request rest IH]; cbn [serve List.length];
    [apply starting_ret|].
  apply (starting_bind 1 (List.length rest)); [apply starting_handleClient | intros _].
  apply (starting_bind 0 (List.length rest)); [quiet_all | intros _; exact IH].
Qed.

Lemma quiet_setup (fuel : nat) : starting 0 (setup fuel).
Proof.
  unfold setup.
  apply (starting_bind 0 0); [apply (starting_emit WifiBegin) | intros _].
  apply (starting_bind 0 0); [apply quiet_wifi_wait | intros i].
  destruct (i =? 21); [apply starting_no_result|].
  apply (starting_bind 0 0); [apply starting_ask | intros mdns].
  apply (starting_bind 0 0); [apply (starting_emit (MdnsBegin mdns)) | intros _].
  apply (starting_bind 0 0); [apply (starting_emit (ServerOn _ _)) | intros _].
  apply (starting_bind 0 0); [apply (starting_emit (ServerOn _ _)) | intros _].
  apply (starting_bind 0 0); [apply (starting_emit ServerOnNotFound) | intros _].
  apply (starting_bind 0 0); [apply (starting_emit ServerBegin) | intros _].
  apply (starting_bind 0 0); [apply starting_ask | intros sd].
  apply (starting_bind 0 0); [apply (starting_emit (SdBegin sd)) | intros _].
  destruct sd; [|apply starting_ret].
  apply (starting_bind 0 0); [apply starting_with_hasSD | intros _].
  apply (starting_emit (AssignHasSD true)).
Qed.

(** X11.  One response for each request: when the sketch has started and
    handled a sequence of requests, it has started exactly as many responses
    as there were requests, whichever handlers they went to. *)
Theorem run_one_response_each (env : Env) (fuel : nat) (requests : list Request)
    (w : World) :
  run fuel requests (boot_world env) = Some (tt, w) ->
  starts (w_trace w) = List.length requests.
Proof.
  intros H. unfold run in H.
  apply (starting_bind 0 (List.length requests) (setup fuel)
           (fun _ => serve fuel requests)) in H.
  - exact H.
  - apply quiet_setup.
  - intros _. apply starting_serve.
Qed.

Lemma run_one_response_each_witness :
  starts (w_trace busy_served) = List.length busy_requests.
Proof.
  apply (run_one_response_each sample_env 5 busy_requests busy_served).
  vm_compute. reflexivity.
Defined.

Lemma untouched_with_request (r : Request) :
  untouched (fun w => Some (tt, with_request r w)).
Proof. intros w a w' [= <- <-]. auto. Qed.

Lemma untouched_with_hasSD (b : bool) :
  untouched (fun w => Some (tt, with_hasSD b w)).
Proof. intros w a w' [= <- <-]. auto. Qed.

Lemma untouched_wifi_wait (fuel : nat) : forall poll i, untouched (wifi_wait fuel poll i).
Proof.
  induction fuel as [|fuel IH]; intros; cbn [wifi_wait]; untouched_all. apply IH.
Qed.

Lemma untouched_setup (fuel : nat) : untouched (setup fuel).
Proof.
  unfold setup.
  apply untouched_bind; [apply untouched_emit | intros _].
  apply untouched_bind; [apply untouched_wifi_wait | intros i].
  destruct (i =? 21); [apply untouched_no_result|].
  untouched_all. apply untouched_with_hasSD.
Qed.

Lemma balanced_handleNotFound (fuel : nat) : balanced (handleNotFound fuel).
Proof.
  unfold handleNotFound.
  apply balanced_bind; [apply untouched_balanced, untouched_ask | intros hasSD].
  apply balanced_bind.
  - destruct hasSD; [|apply untouched_balanced, untouched_ret].
    apply balanced_bind; [apply untouched_balanced; untouched_all | intros uri].
    apply balanced_loadFromSdCard.
  - intros served. apply untouched_balanced. untouched_all.
    apply untouched_handleNotFound_loop.
Qed.

Lemma balanced_handleClient (fuel : nat) (request : Request) :
  balanced (handleClient fuel request).
Proof.
  unfold handleClient.
  apply balanced_bind; [apply untouched_balanced, untouched_with_request | intros _].
  destruct (_ && _); [apply balanced_printDirectory|].
  destruct (_ && _);
    [apply untouched_balanced, untouched_streamRaw | apply balanced_handleNotFound].
Qed.

Lemma balanced_serve (fuel : nat) (requests : list Request) :
  balanced (serve fuel requests).
Proof.
  induction requests as [|request rest IH]; cbn [serve];
    [apply untouched_balanced, untouched_ret|].
  apply balanced_bind; [apply balanced_handleClient | intros _].
  apply balanced_bind; [apply untouched_balanced, untouched_emit | intros _; exact IH].
Qed.

(** X12.  No handle outlives its request: when the sketch has started and
    handled a sequence of requests, whichever handlers they went to and
    however they ended, no file or directory of the card is left open. *)
Theorem run_leaves_nothing_open (env : Env) (fuel : nat) (requests : list Request)
    (w : World) :
  run fuel requests (boot_world env) = Some (tt, w) ->
  w_open w = [].
Proof.
  intros H. unfold run in H.
  apply (balanced_bind (setup fuel) (fun _ => serve fuel requests)) in H.
  - exact (proj2 H).
  - apply untouched_balanced, untouched_setup.
  - intros _. apply balanced_serve.
  - apply Forall_nil.
Qed.

Lemma run_leaves_nothing_open_witness : w_open busy_served = [].
Proof.
  apply (run_leaves_nothing_open sample_env 5 busy_requests busy_served).
  vm_compute. reflexivity.
Defined.
